(** * Find-Duplicate-Photos-Video: a shallow embedding of [duplicate.py]

    The development follows the Python module function by function:
    the fingerprint engine ([image_hash], [sha256_hash]), the similarity
    engine ([get_similarity_score], on top of
    [scipy.spatial.distance.hamming]), the two deduplication loops
    ([process_images], [process_videos]), first over the candidate files
    and then over what [os.walk] yields, and [main].

    Conventions.
    - Python [str] is [string]; [dict] is stdpp's [gmap] with string keys.
    - The loops run in a small state-and-exception monad: the state holds
      the dictionary [encountered_hashes] and the trace of console lines
      and filesystem calls; an exception leaves the state as it was when
      it was raised, as in Python.
    - What the outside world answers (decoding a file, hashing its bytes,
      moving it) is part of the input: every candidate file of the
      traversal carries the outcome of the calls made on it.
    - [numpy.float64] arithmetic is idealised by exact rationals ([Q]);
      rounding is round-half-to-even.  For strings of the lengths met
      in practice the two can differ only at a rounding tie, where the
      statements leave the choice open. *)

From Stdlib Require Import ZArith QArith Qround Lia Lqa String Ascii List.
From Equations Require Import Equations.
From stdpp Require Import base list gmap strings.

Local Open Scope string_scope.
Local Open Scope list_scope.

(** ** Python exceptions and outcomes *)

Record exn := Exception { exn_type : string; exn_str : string }.

Inductive outcome (A : Type) : Type :=
| Returns (a : A)
| Raises (e : exn).
Arguments Returns {A} a.
Arguments Raises {A} e.

(** ** Observable effects: console lines and filesystem calls *)

Inductive event : Type :=
| Print (line : string)
| Makedirs (path : string)
| Moved (src dst : string)
| MoveRaised (src dst : string) (e : exn).

(** ** The state of one pipeline run *)

Record state (V : Type) : Type := State {
  encountered_hashes : gmap string V;
  trace : list event
}.
Arguments State {V} _ _.
Arguments encountered_hashes {V} _.
Arguments trace {V} _.

(** ** The state-and-exception monad of a loop body *)

Definition M (V A : Type) : Type := state V -> outcome A * state V.

Definition ret {V A} (a : A) : M V A := fun st => (Returns a, st).

Definition bind {V A B} (m : M V A) (k : A -> M V B) : M V B :=
  fun st =>
    match m st with
    | (Returns a, st') => k a st'
    | (Raises e, st') => (Raises e, st')
    end.

Definition raise {V A} (e : exn) : M V A := fun st => (Raises e, st).

Definition lift {V A} (r : outcome A) : M V A := fun st => (r, st).

(** [try: body except Exception as e: handler e] *)
Definition try_except {V A} (body : M V A) (handler : exn -> M V A) : M V A :=
  fun st =>
    match body st with
    | (Returns a, st') => (Returns a, st')
    | (Raises e, st') => handler e st'
    end.

Definition emit {V} (ev : event) : M V unit :=
  fun st => (Returns tt, State (encountered_hashes st) (trace st ++ [ev])).

Definition print {V} (line : string) : M V unit := emit (Print line).

Definition get_hashes {V} : M V (gmap string V) :=
  fun st => (Returns (encountered_hashes st), st).

(** [encountered_hashes[k] = v] *)
Definition set_hash {V} (k : string) (v : V) : M V unit :=
  fun st => (Returns tt, State (<[k := v]> (encountered_hashes st)) (trace st)).

Global Instance M_ret {V} : MRet (M V) := fun A a => ret a.
Global Instance M_bind {V} : MBind (M V) := fun A B k m => bind m k.

(** ** Paths ([os.sep], [str.count], [os.path.basename], [os.path.join]) *)

Definition os_sep : ascii := "/"%char.

(** [s.count(c)] for a one-character [c]. *)
Fixpoint count (s : string) (c : ascii) : nat :=
  match s with
  | EmptyString => 0
  | String a r => (if Ascii.eqb a c then 1 else 0) + count r c
  end.

(** [p[p.rfind(sep) + 1:]]: [seen] is what was read since the last separator. *)
Fixpoint basename_from (seen p : string) : string :=
  match p with
  | EmptyString => seen
  | String a r =>
      if Ascii.eqb a os_sep then basename_from EmptyString r
      else basename_from (seen +:+ String a EmptyString) r
  end.

Definition basename (p : string) : string := basename_from EmptyString p.

Definition startswith_sep (s : string) : bool :=
  match s with
  | String a _ => Ascii.eqb a os_sep
  | EmptyString => false
  end.

Fixpoint endswith_sep (s : string) : bool :=
  match s with
  | EmptyString => false
  | String a EmptyString => Ascii.eqb a os_sep
  | String _ r => endswith_sep r
  end.

(** [os.path.join(a, b)] of [posixpath]. *)
Definition join (a b : string) : string :=
  if startswith_sep b then b
  else if (String.eqb a EmptyString || endswith_sep a)%bool then a +:+ b
  else a +:+ String os_sep b.

Definition DUPLICATE_FOLDER_NAME : string := "_duplicates".

(** [shutil.move(src, dst)]: [raises] is what the filesystem answers. *)
Definition shutil_move {V} (raises : option exn) (src dst : string) : M V unit :=
  match raises with
  | None => emit (Moved src dst)
  | Some e => emit (MoveRaised src dst e);; raise e
  end.

(** [for x in l: body x] *)
Fixpoint for_each {V A} (body : A -> M V unit) (l : list A) : M V unit :=
  match l with
  | [] => mret tt
  | x :: r => body x;; for_each body r
  end.

(** ** Fingerprint engine: [image_hash] *)

Definition COMPARE_SIZE : nat := 300.

(** [np.array(img).flatten()]: the rows of the array one after the other. *)
Definition flatten (img : list (list Z)) : list Z := concat img.

Definition total (pixels : list Z) : Z := foldr Z.add 0%Z pixels.

(** [pixels.mean()].  The sum of at most 90000 bytes and its quotient by
    their number are far from the limits of [float64]; the comparison
    [p > avg] of an integer with the rounded quotient has the outcome of
    the exact one, a pixel and the exact mean being either equal or at
    least 1/90000 apart. *)
Definition mean (pixels : list Z) : Q :=
  (inject_Z (total pixels) / inject_Z (Z.of_nat (length pixels)))%Q.

(** ["1" if p > avg else "0"] *)
Definition threshold (avg : Q) (p : Z) : ascii :=
  match (inject_Z p ?= avg)%Q with
  | Gt => "1"%char
  | _ => "0"%char
  end.

(** [resized] is what
    [Image.open(img_path).convert("L").resize((COMPARE_SIZE, COMPARE_SIZE), resampling)]
    gives as an array: the rows of the grayscale image, or the exception
    raised while opening or decoding the file. *)
Definition image_hash (resized : outcome (list (list Z))) : outcome string :=
  match resized with
  | Raises e => Raises e
  | Returns img =>
      let pixels := flatten img in
      let avg := mean pixels in
      Returns (string_of_list_ascii (map (threshold avg) pixels))
  end.

(** ** Deduplication of images: [process_images] *)

(** A file of the traversal that passed the extension filter
    ([file_path = os.path.join(root, file)]), with what the world answers
    when it is opened and when a file is moved during its iteration. *)
Record image_file : Type := ImageFile {
  img_path : string;
  img_resized : outcome (list (list Z));
  img_move : option exn
}.

(** The body of the [try] block. *)
Definition image_try (duplicates_folder : string) (f : image_file) : M string unit :=
  let file_path := img_path f in
  img_hash ← lift (image_hash (img_resized f));
  hashes ← get_hashes;
  match hashes !! img_hash with
  | Some existing_file =>
      if Nat.ltb (count existing_file os_sep) (count file_path os_sep) then
        print ("Moving duplicate (parent folder): " +:+ existing_file);;
        shutil_move (img_move f) existing_file
          (join duplicates_folder (basename existing_file));;
        set_hash img_hash file_path
      else
        print ("Moving duplicate (subfolder): " +:+ file_path);;
        shutil_move (img_move f) file_path
          (join duplicates_folder (basename file_path))
  | None => set_hash img_hash file_path
  end.

Definition image_error_line (file_path : string) (e : exn) : string :=
  "Error processing image " +:+ file_path +:+ ": " +:+ exn_str e.

(** One iteration of the loop: [try ... except Exception as e: print(...)]. *)
Definition image_iteration (duplicates_folder : string) (f : image_file) : M string unit :=
  try_except (image_try duplicates_folder f)
             (fun e => print (image_error_line (img_path f) e)).

Definition newline : string := String (ascii_of_nat 10) EmptyString.

(** [files] are the files [os.walk] yields, in its order, that end in one
    of the image extensions; the progress bar of [tqdm] is left out and
    [os.makedirs(..., exist_ok=True)] is taken to return. *)
Definition process_images (input_folder : string) (files : list image_file) : M string unit :=
  let duplicates_folder := join input_folder DUPLICATE_FOLDER_NAME in
  emit (Makedirs duplicates_folder);;
  print (newline +:+ "Processing Images...");;
  for_each (image_iteration duplicates_folder) files.

(** [encountered_hashes = {}] on entry. *)
Definition initial {V} : state V := State ∅ [].

(** ** Deduplication of videos: [process_videos] *)

(** A file of the traversal that ends in one of the video extensions.
    [vid_sha256] is the outcome of [sha256_hash(file_path)], the
    hexadecimal digest of the bytes of the file read in chunks of 8192,
    or the exception raised while opening or reading it; [vid_getsize]
    is the outcome of [os.path.getsize(file_path)]. *)
Record video_file : Type := VideoFile {
  vid_path : string;
  vid_sha256 : outcome string;
  vid_getsize : outcome Z;
  vid_move : option exn
}.

Definition video_try (duplicates_folder : string) (f : video_file) : M (string * Z) unit :=
  let file_path := vid_path f in
  file_hash ← lift (vid_sha256 f);
  file_size ← lift (vid_getsize f);
  hashes ← get_hashes;
  match hashes !! file_hash with
  | Some (existing_file, existing_size) =>
      if Nat.ltb (count existing_file os_sep) (count file_path os_sep) then
        print ("Moving duplicate (parent folder): " +:+ existing_file);;
        shutil_move (vid_move f) existing_file
          (join duplicates_folder (basename existing_file));;
        set_hash file_hash (file_path, file_size)
      else
        print ("Moving duplicate (subfolder): " +:+ file_path);;
        shutil_move (vid_move f) file_path
          (join duplicates_folder (basename file_path))
  | None => set_hash file_hash (file_path, file_size)
  end.

Definition video_error_line (file_path : string) (e : exn) : string :=
  "Error processing video " +:+ file_path +:+ ": " +:+ exn_str e.

Definition video_iteration (duplicates_folder : string) (f : video_file) : M (string * Z) unit :=
  try_except (video_try duplicates_folder f)
             (fun e => print (video_error_line (vid_path f) e)).

Definition process_videos (input_folder : string) (files : list video_file) : M (string * Z) unit :=
  let duplicates_folder := join input_folder DUPLICATE_FOLDER_NAME in
  emit (Makedirs duplicates_folder);;
  print (newline +:+ "Processing Videos...");;
  for_each (video_iteration duplicates_folder) files.

(** ** The two pipelines side by side

    [process_images] and [process_videos] have the same shape; the
    definitions below name, for either of them, the parts the statements
    talk about. *)

Inductive pipeline : Type := Images | Videos.

(** What [encountered_hashes] stores. *)
Definition entry (m : pipeline) : Type :=
  match m with
  | Images => string
  | Videos => (string * Z)%type
  end.

Definition candidate (m : pipeline) : Type :=
  match m with
  | Images => image_file
  | Videos => video_file
  end.

Definition file_path (m : pipeline) : candidate m -> string :=
  match m with
  | Images => img_path
  | Videos => vid_path
  end.

Definition move_answer (m : pipeline) : candidate m -> option exn :=
  match m with
  | Images => img_move
  | Videos => vid_move
  end.

(** The fingerprint the iteration computes for the file. *)
Definition fingerprint (m : pipeline) : candidate m -> outcome string :=
  match m with
  | Images => fun f => image_hash (img_resized f)
  | Videos => vid_sha256
  end.

(** The key and the value the iteration works with, when every call made
    before the dictionary is consulted returns. *)
Definition observed (m : pipeline) : candidate m -> outcome (string * entry m) :=
  match m with
  | Images => fun f =>
      match image_hash (img_resized f) with
      | Returns h => Returns (h, img_path f)
      | Raises e => Raises e
      end
  | Videos => fun f =>
      match vid_sha256 f with
      | Returns h =>
          match vid_getsize f with
          | Returns size => Returns (h, (vid_path f, size))
          | Raises e => Raises e
          end
      | Raises e => Raises e
      end
  end.

Definition stored_path (m : pipeline) : entry m -> string :=
  match m with
  | Images => fun p => p
  | Videos => fst
  end.

Definition try_block (m : pipeline) : string -> candidate m -> M (entry m) unit :=
  match m with
  | Images => image_try
  | Videos => video_try
  end.

Definition error_line (m : pipeline) : string -> exn -> string :=
  match m with
  | Images => image_error_line
  | Videos => video_error_line
  end.

Definition iteration (m : pipeline) : string -> candidate m -> M (entry m) unit :=
  match m with
  | Images => image_iteration
  | Videos => video_iteration
  end.

Definition process (m : pipeline) : string -> list (candidate m) -> M (entry m) unit :=
  match m with
  | Images => process_images
  | Videos => process_videos
  end.

Definition run (m : pipeline) (input_folder : string) (files : list (candidate m)) : state (entry m) :=
  snd (process m input_folder files initial).

(** The state the loop leaves when started in [st]. *)
Definition iterate (m : pipeline) (duplicates_folder : string)
    (files : list (candidate m)) (st : state (entry m)) : state (entry m) :=
  snd (for_each (iteration m duplicates_folder) files st).

(** Depth of a path: the number of separators in it. *)
Definition depth (p : string) : nat := count p os_sep.

Definition quarantine (duplicates_folder p : string) : string :=
  join duplicates_folder (basename p).

(** The exception the [try] block of a file raises in a state, if any. *)
Definition raised_in (m : pipeline) (duplicates_folder : string)
    (f : candidate m) (st : state (entry m)) : option exn :=
  match fst (try_block m duplicates_folder f st) with
  | Raises e => Some e
  | Returns _ => None
  end.

(** A call of [shutil.move] on [p], whether it returned or raised. *)
Definition relocates (p : string) (ev : event) : bool :=
  match ev with
  | Moved src _ => String.eqb src p
  | MoveRaised src _ _ => String.eqb src p
  | _ => false
  end.

(** The six ways an iteration can go: the exception its [try] block
    raised, if any, and the state it leaves. *)
Inductive observation (m : pipeline) (duplicates_folder : string)
    (f : candidate m) (st : state (entry m)) : option exn -> state (entry m) -> Prop :=
| obs_unreadable e :
    observed m f = Raises e ->
    observation m duplicates_folder f st (Some e)
      (State (encountered_hashes st)
             (trace st ++ [Print (error_line m (file_path m f) e)]))
| obs_record h v :
    observed m f = Returns (h, v) ->
    encountered_hashes st !! h = None ->
    observation m duplicates_folder f st None
      (State (<[h := v]> (encountered_hashes st)) (trace st))
| obs_replace h v old :
    observed m f = Returns (h, v) ->
    encountered_hashes st !! h = Some old ->
    depth (stored_path m old) < depth (file_path m f) ->
    move_answer m f = None ->
    observation m duplicates_folder f st None
      (State (<[h := v]> (encountered_hashes st))
             (trace st
               ++ [Print ("Moving duplicate (parent folder): " +:+ stored_path m old);
                   Moved (stored_path m old)
                         (quarantine duplicates_folder (stored_path m old))]))
| obs_replace_raised h v old e :
    observed m f = Returns (h, v) ->
    encountered_hashes st !! h = Some old ->
    depth (stored_path m old) < depth (file_path m f) ->
    move_answer m f = Some e ->
    observation m duplicates_folder f st (Some e)
      (State (encountered_hashes st)
             (trace st
               ++ [Print ("Moving duplicate (parent folder): " +:+ stored_path m old);
                   MoveRaised (stored_path m old)
                              (quarantine duplicates_folder (stored_path m old)) e;
                   Print (error_line m (file_path m f) e)]))
| obs_quarantine h v old :
    observed m f = Returns (h, v) ->
    encountered_hashes st !! h = Some old ->
    depth (file_path m f) <= depth (stored_path m old) ->
    move_answer m f = None ->
    observation m duplicates_folder f st None
      (State (encountered_hashes st)
             (trace st
               ++ [Print ("Moving duplicate (subfolder): " +:+ file_path m f);
                   Moved (file_path m f)
                         (quarantine duplicates_folder (file_path m f))]))
| obs_quarantine_raised h v old e :
    observed m f = Returns (h, v) ->
    encountered_hashes st !! h = Some old ->
    depth (file_path m f) <= depth (stored_path m old) ->
    move_answer m f = Some e ->
    observation m duplicates_folder f st (Some e)
      (State (encountered_hashes st)
             (trace st
               ++ [Print ("Moving duplicate (subfolder): " +:+ file_path m f);
                   MoveRaised (file_path m f)
                              (quarantine duplicates_folder (file_path m f)) e;
                   Print (error_line m (file_path m f) e)])).

(** ** A pure reading of the loop, used by the proofs

    [step] gives the dictionary an iteration leaves and the events it
    appends; [iteration_step] below shows it is what the loop body does. *)

Definition step (m : pipeline) (duplicates_folder : string) (f : candidate m)
    (hashes : gmap string (entry m)) : gmap string (entry m) * list event :=
  match observed m f with
  | Raises e => (hashes, [Print (error_line m (file_path m f) e)])
  | Returns (h, v) =>
      match hashes !! h with
      | None => (<[h := v]> hashes, [])
      | Some old =>
          if Nat.ltb (depth (stored_path m old)) (depth (file_path m f)) then
            match move_answer m f with
            | None =>
                (<[h := v]> hashes,
                 [Print ("Moving duplicate (parent folder): " +:+ stored_path m old);
                  Moved (stored_path m old)
                        (quarantine duplicates_folder (stored_path m old))])
            | Some e =>
                (hashes,
                 [Print ("Moving duplicate (parent folder): " +:+ stored_path m old);
                  MoveRaised (stored_path m old)
                             (quarantine duplicates_folder (stored_path m old)) e;
                  Print (error_line m (file_path m f) e)])
            end
          else
            match move_answer m f with
            | None =>
                (hashes,
                 [Print ("Moving duplicate (subfolder): " +:+ file_path m f);
                  Moved (file_path m f)
                        (quarantine duplicates_folder (file_path m f))])
            | Some e =>
                (hashes,
                 [Print ("Moving duplicate (subfolder): " +:+ file_path m f);
                  MoveRaised (file_path m f)
                             (quarantine duplicates_folder (file_path m f)) e;
                  Print (error_line m (file_path m f) e)])
            end
      end
  end.

Fixpoint steps (m : pipeline) (duplicates_folder : string) (files : list (candidate m))
    (hashes : gmap string (entry m)) : gmap string (entry m) * list event :=
  match files with
  | [] => (hashes, [])
  | f :: rest =>
      let (hashes1, events1) := step m duplicates_folder f hashes in
      let (hashes2, events2) := steps m duplicates_folder rest hashes1 in
      (hashes2, events1 ++ events2)
  end.

(** What [process_images] and [process_videos] do before the loop. *)
Definition header (m : pipeline) : string :=
  match m with
  | Images => newline +:+ "Processing Images..."
  | Videos => newline +:+ "Processing Videos..."
  end.

Definition preamble (m : pipeline) (input_folder : string) : list event :=
  [Makedirs (join input_folder DUPLICATE_FOLDER_NAME); Print (header m)].

(** ** Sample traversal: two copies of one video, at depths 1 and 2 *)

Definition clip_digest : string :=
  "e3b0c44298fc1c149afbf4c8996fb92427ae41e4649b934ca495991b7852b855".

Definition permission_denied : exn :=
  Exception "PermissionError" "[Errno 13] Permission denied: 'photos/clip.mp4'".

Definition shallow_clip : video_file :=
  VideoFile "photos/clip.mp4" (Returns clip_digest) (Returns 1024%Z) None.

Definition deep_clip : video_file :=
  VideoFile "photos/2020/clip.mp4" (Returns clip_digest) (Returns 1024%Z) None.

(** The same deeper copy, met while the shallow one cannot be moved. *)
Definition deep_clip_stuck : video_file :=
  VideoFile "photos/2020/clip.mp4" (Returns clip_digest) (Returns 1024%Z)
            (Some permission_denied).

Definition shallow_recorded : state (string * Z) :=
  State {[ clip_digest := ("photos/clip.mp4", 1024%Z) ]} [].

Definition deep_recorded : state (string * Z) :=
  State {[ clip_digest := ("photos/2020/clip.mp4", 1024%Z) ]} [].

(** The reading under which the dictionary is updated before the move is
    attempted: a failed move of the stored path leaves the entry of the
    fingerprint pointing at the candidate. *)
Definition updated_before_move (m : pipeline) (duplicates_folder : string)
    (f : candidate m) (st : state (entry m)) : Prop :=
  forall h v old e,
    observed m f = Returns (h, v) ->
    encountered_hashes st !! h = Some old ->
    depth (stored_path m old) < depth (file_path m f) ->
    move_answer m f = Some e ->
    encountered_hashes (snd (iteration m duplicates_folder f st)) !! h = Some v.

(** ** Observed and completed files of a run *)

(** The fingerprint and path of a file the loop got a fingerprint for. *)
Definition sighting (m : pipeline) (f : candidate m) : list (string * string) :=
  match observed m f with
  | Returns (h, _) => [(h, file_path m f)]
  | Raises _ => []
  end.

Definition sightings (m : pipeline) (files : list (candidate m)) : list (string * string) :=
  flat_map (sighting m) files.

(** The same, kept only when the [try] block of the file returns in the
    dictionary it meets. *)
Definition completion (m : pipeline) (duplicates_folder : string) (f : candidate m)
    (hashes : gmap string (entry m)) : list (string * string) :=
  match raised_in m duplicates_folder f (State hashes []) with
  | None => sighting m f
  | Some _ => []
  end.

Fixpoint completed (m : pipeline) (duplicates_folder : string)
    (files : list (candidate m)) (hashes : gmap string (entry m)) : list (string * string) :=
  match files with
  | [] => []
  | f :: rest =>
      completion m duplicates_folder f hashes
        ++ completed m duplicates_folder rest
             (encountered_hashes
                (snd (iteration m duplicates_folder f (State hashes []))))
  end.

(** Every stored path is one of [seen] for its fingerprint, and no path
    of [seen] with that fingerprint is deeper. *)
Definition keeps_deepest (m : pipeline) (seen : list (string * string))
    (hashes : gmap string (entry m)) : Prop :=
  forall h v,
    hashes !! h = Some v ->
    (h, stored_path m v) ∈ seen
    /\ forall p, (h, p) ∈ seen -> depth p <= depth (stored_path m v).

(** Every fingerprint of [seen] has an entry. *)
Definition all_recorded (m : pipeline) (seen : list (string * string))
    (hashes : gmap string (entry m)) : Prop :=
  forall h p, (h, p) ∈ seen -> is_Some (hashes !! h).

(** A call of [shutil.move] that returned. *)
Definition is_moved (ev : event) : bool :=
  match ev with
  | Moved _ _ => true
  | _ => false
  end.

(** No entry other than that of [h] stores the path [p]. *)
Definition stored_elsewhere (m : pipeline) (h p : string)
    (hashes : gmap string (entry m)) : Prop :=
  forall h' old, h' <> h -> hashes !! h' = Some old -> stored_path m old <> p.

(** A third video, with content of its own. *)
Definition holiday_digest : string :=
  "ba7816bf8f01cfea414140de5dae2223b00361a396177a9cb410ff61f20015ad".

Definition holiday : video_file :=
  VideoFile "photos/2021/holiday.mp4" (Returns holiday_digest) (Returns 2048%Z) None.

(** ** Vocabulary for the image fingerprint *)

(** The array of a grayscale image resized to COMPARE_SIZE x COMPARE_SIZE:
    that many rows of that many 8-bit pixels. *)
Definition resized (img : list (list Z)) : Prop :=
  length img = COMPARE_SIZE
  /\ Forall (fun row => length row = COMPARE_SIZE
                        /\ Forall (fun p => (0 <= p <= 255)%Z) row) img.

(** Every pixel has the intensity [c]. *)
Definition uniform (c : Z) (img : list (list Z)) : Prop :=
  Forall (Forall (fun p => p = c)) img.

(** Pixel of row [r], column [c]. *)
Definition pixel (img : list (list Z)) (r c : nat) : option Z :=
  match img !! r with
  | Some row => row !! c
  | None => None
  end.

(** The sum of the pixels of a row, and of all rows of a grid. *)
Fixpoint row_sum (row : list Z) : Z :=
  match row with
  | [] => 0%Z
  | p :: rest => (p + row_sum rest)%Z
  end.

Fixpoint grid_sum (img : list (list Z)) : Z :=
  match img with
  | [] => 0%Z
  | row :: rest => (row_sum row + grid_sum rest)%Z
  end.

(** [p] is strictly above the mean of the COMPARE_SIZE² pixels of [img]:
    the sum of the pixels is below COMPARE_SIZE² times [p]. *)
Definition above_mean (img : list (list Z)) (p : Z) : bool :=
  (grid_sum img <? p * Z.of_nat (COMPARE_SIZE * COMPARE_SIZE))%Z.

Definition zeros (n : nat) : string := string_of_list_ascii (replicate n "0"%char).

Definition solid (c : Z) : list (list Z) :=
  replicate COMPARE_SIZE (replicate COMPARE_SIZE c).

(** A resized image whose upper half is dark (10) and whose lower half
    is light (200); its mean is 105. *)
Definition two_tone : list (list Z) :=
  replicate 150 (replicate COMPARE_SIZE 10%Z)
    ++ replicate 150 (replicate COMPARE_SIZE 200%Z).

(** A file that is no image. *)
Definition broken_image : image_file :=
  ImageFile "photos/broken.jpg"
    (Raises (Exception "UnidentifiedImageError"
               "cannot identify image file 'photos/broken.jpg'"))
    None.

(** ** Similarity engine: [get_similarity_score] *)

(** A [numpy.float64], idealised: a rational or not-a-number. *)
Inductive float64 : Type :=
| Finite (q : Q)
| NaN.

(** [u != v] on two arrays of the same length, element by element. *)
Definition not_equal (u v : list ascii) : list bool :=
  zip_with (fun a b => negb (Ascii.eqb a b)) u v.

Definition count_true (mask : list bool) : nat :=
  length (List.filter (fun b => b) mask).

(** [np.mean(mask)] of a boolean array; the mean of an empty array is
    not-a-number. *)
Definition np_mean (mask : list bool) : float64 :=
  match mask with
  | [] => NaN
  | _ :: _ => Finite (Z.of_nat (count_true mask) # Pos.of_nat (length mask))
  end.

(** [scipy.spatial.distance.hamming(u, v)] without weights: arrays of
    different shapes raise [ValueError], otherwise the mean of [u != v]. *)
Definition hamming (u v : list ascii) : outcome float64 :=
  if Nat.eqb (length u) (length v) then Returns (np_mean (not_equal u v))
  else Raises (Exception "ValueError" "The 1d arrays must have equal lengths.").

(** Rounding to the nearest integer, ties to the even one. *)
Definition round_half_even (x : Q) : Z :=
  let f := Qfloor x in
  match (x - inject_Z f ?= 1 # 2)%Q with
  | Lt => f
  | Gt => (f + 1)%Z
  | Eq => if Z.even f then f else (f + 1)%Z
  end.

(** [round(x, 2)].  On exact rationals a value halfway between two
    hundredths goes to the even one; in [binary64] the error of the
    quotient decides there, so the statements below say nothing about
    which of the two hundredths a halfway value is rounded to. *)
Definition round2 (x : float64) : float64 :=
  match x with
  | Finite q => Finite (inject_Z (round_half_even (q * 100)) / 100)
  | NaN => NaN
  end.

(** [(1 - dist) * 100] *)
Definition percentage (dist : float64) : float64 :=
  match dist with
  | Finite d => Finite ((1 - d) * 100)
  | NaN => NaN
  end.

Definition get_similarity_score (hash1 hash2 : string) : outcome float64 :=
  match hamming (list_ascii_of_string hash1) (list_ascii_of_string hash2) with
  | Returns dist => Returns (round2 (percentage dist))
  | Raises e => Raises e
  end.

(** [score == x] for a returned score; an exception or not-a-number is
    equal to nothing. *)
Definition score_is (score : outcome float64) (x : Q) : bool :=
  match score with
  | Returns (Finite q) => Qeq_bool q x
  | _ => false
  end.

(** The positions at which two strings of the same length differ. *)
Definition differs_at (a b : string) (i : nat) : bool :=
  match String.get i a, String.get i b with
  | Some x, Some y => negb (Ascii.eqb x y)
  | _, _ => false
  end.

Definition differing (a b : string) : nat :=
  length (List.filter (differs_at a b) (seq 0 (String.length a))).

(** The string of [n] zeros with its first character set to one. *)
Definition one_then_zeros (n : nat) : string :=
  String "1"%char (zeros (n - 1)).

(** ** Vocabulary for the events of a run *)

(** The sources of the calls of [shutil.move] that returned, in order. *)
Definition moved_sources (events : list event) : list string :=
  flat_map (fun ev => match ev with Moved src _ => [src] | _ => [] end) events.

(** An event is no call of [shutil.move], or one whose destination is
    the quarantine path of its source. *)
Definition moves_to_quarantine (duplicates_folder : string) (ev : event) : Prop :=
  match ev with
  | Moved src dst => dst = quarantine duplicates_folder src
  | MoveRaised src dst _ => dst = quarantine duplicates_folder src
  | _ => True
  end.

(** An event is no call of [shutil.move], or one on a path of [paths]. *)
Definition moves_one_of (paths : list string) (ev : event) : Prop :=
  match ev with
  | Moved src _ => src ∈ paths
  | MoveRaised src _ _ => src ∈ paths
  | _ => True
  end.

(** Every call made on the file returns. *)
Definition trouble_free (m : pipeline) (f : candidate m) : Prop :=
  (exists h v, observed m f = Returns (h, v)) /\ move_answer m f = None.

(** The stored paths are among [paths], none of them is in [moved], no
    path is twice in [moved], every path of [moved] is in [paths], and no
    path is stored for two fingerprints. *)
Definition kept_apart (m : pipeline) (hashes : gmap string (entry m))
    (moved paths : list string) : Prop :=
  (forall h v, hashes !! h = Some v -> stored_path m v ∈ paths)
  /\ (forall src, src ∈ moved -> src ∈ paths)
  /\ NoDup moved
  /\ (forall h v, hashes !! h = Some v -> stored_path m v ∉ moved)
  /\ (forall h1 v1 h2 v2,
        hashes !! h1 = Some v1 -> hashes !! h2 = Some v2 ->
        stored_path m v1 = stored_path m v2 -> h1 = h2).

(** In the list [done] of completed files, in the order of the
    traversal, [(h, p)] occurs, every file with fingerprint [h] before it
    is strictly shallower than [p] and none after it is deeper. *)
Definition first_of_deepest (done : list (string * string)) (h p : string) : Prop :=
  exists before after,
    done = before ++ (h, p) :: after
    /\ (forall q, (h, q) ∈ before -> depth q < depth p)
    /\ (forall q, (h, q) ∈ after -> depth q <= depth p).

(** ** Fingerprint engine: [sha256_hash] *)

Definition inspect {A} (a : A) : {b : A | a = b} := exist _ a eq_refl.

(** [iter(lambda: f.read(size), b"")] on a file whose remaining bytes are
    [rest]: each call of [f.read(size)] returns the next [size] bytes,
    fewer at the end of the file, and the iteration stops at the first
    empty answer. *)
Equations? read_chunks (size : nat) (rest : list Byte.byte) : list (list Byte.byte)
  by wf (length rest) lt :=
  read_chunks size rest with inspect (take size rest) := {
    | exist _ [] _ => []
    | exist _ (b :: chunk) Hread => (b :: chunk) :: read_chunks size (drop size rest)
  }.
Proof.
  destruct size as [|size]; [discriminate Hread|].
  destruct rest as [|x rest]; [discriminate Hread|].
  rewrite length_drop. simpl. lia.
Qed.

Definition READ_SIZE : nat := N.to_nat 8192.

Section Sha256.
Context {H : Type}.
(** The hash object of [hashlib]: a fresh one, [update] and [hexdigest]. *)
Context (sha256 : H) (update : H -> list Byte.byte -> H) (hexdigest : H -> string).

(** [opened] is the content of the file, or the exception raised while
    opening or reading it. *)
Definition sha256_hash (opened : outcome (list Byte.byte)) : outcome string :=
  match opened with
  | Raises e => Raises e
  | Returns content =>
      Returns (hexdigest (fold_left update (read_chunks READ_SIZE content) sha256))
  end.

End Sha256.

(** ** The traversal: [os.walk] and the extension filter *)

(** [s.endswith(ending)] *)
Definition endswith (s ending : string) : bool :=
  bool_decide (suffix (list_ascii_of_string ending) (list_ascii_of_string s)).

(** [s.endswith((ending1, ending2, ...))] *)
Definition endswith_any (s : string) (endings : list string) : bool :=
  existsb (endswith s) endings.

Definition image_extensions : list string := [".jpg"; ".jpeg"; ".png"; ".gif"; ".bmp"].
Definition video_extensions : list string := [".mp4"; ".avi"; ".mkv"; ".mov"; ".wmv"].

(** A file name of a folder [os.walk] yields, with what the world
    answers when the file is opened as an image and when a file is moved
    during its iteration. *)
Record walked_image : Type := WalkedImage {
  wi_file : string;
  wi_resized : outcome (list (list Z));
  wi_move : option exn
}.

Record walked_video : Type := WalkedVideo {
  wv_file : string;
  wv_sha256 : outcome string;
  wv_getsize : outcome Z;
  wv_move : option exn
}.

Section Walk.
(** [str.lower] *)
Context (lower : string -> string).

Definition has_image_extension (file : string) : bool :=
  endswith_any (lower file) image_extensions.

Definition has_video_extension (file : string) : bool :=
  endswith_any (lower file) video_extensions.

(** The body of the inner loop of [process_images]. *)
Definition image_file_step (duplicates_folder root : string) (w : walked_image) : M string unit :=
  if negb (has_image_extension (wi_file w)) then mret tt
  else
    let file_path := join root (wi_file w) in
    image_iteration duplicates_folder (ImageFile file_path (wi_resized w) (wi_move w)).

(** [process_images] on what [os.walk(input_folder)] yields: for each
    folder, its path [root] and the names of its files. *)
Definition process_images_walk (input_folder : string)
    (walk : list (string * list walked_image)) : M string unit :=
  let duplicates_folder := join input_folder DUPLICATE_FOLDER_NAME in
  emit (Makedirs duplicates_folder);;
  print (newline +:+ "Processing Images...");;
  for_each (fun '(root, files) => for_each (image_file_step duplicates_folder root) files)
           walk.

Definition video_file_step (duplicates_folder root : string) (w : walked_video) : M (string * Z) unit :=
  if negb (has_video_extension (wv_file w)) then mret tt
  else
    let file_path := join root (wv_file w) in
    video_iteration duplicates_folder
      (VideoFile file_path (wv_sha256 w) (wv_getsize w) (wv_move w)).

Definition process_videos_walk (input_folder : string)
    (walk : list (string * list walked_video)) : M (string * Z) unit :=
  let duplicates_folder := join input_folder DUPLICATE_FOLDER_NAME in
  emit (Makedirs duplicates_folder);;
  print (newline +:+ "Processing Videos...");;
  for_each (fun '(root, files) => for_each (video_file_step duplicates_folder root) files)
           walk.

(** The candidates of a traversal: the files that pass the filter, in
    the order of the traversal, under their joined path. *)
Definition image_candidates (walk : list (string * list walked_image)) : list image_file :=
  flat_map (fun '(root, files) =>
    flat_map (fun w =>
      if has_image_extension (wi_file w)
      then [ImageFile (join root (wi_file w)) (wi_resized w) (wi_move w)]
      else []) files) walk.

Definition video_candidates (walk : list (string * list walked_video)) : list video_file :=
  flat_map (fun '(root, files) =>
    flat_map (fun w =>
      if has_video_extension (wv_file w)
      then [VideoFile (join root (wv_file w)) (wv_sha256 w) (wv_getsize w) (wv_move w)]
      else []) files) walk.

(** [main], for the folder given on the command line: the console and
    the filesystem calls of the whole program, and whether it returns.
    [image_makedirs] and [video_makedirs] are what [os.makedirs] answers
    in [process_images] and in [process_videos]: the call is outside any
    [try], so an exception it raises ends the program; the loops above
    are the case in which it returns. *)
Definition main (inspection_folder : string)
    (image_makedirs video_makedirs : option exn)
    (image_walk : list (string * list walked_image))
    (video_walk : list (string * list walked_video)) : outcome unit * list event :=
  let input_folder := inspection_folder in
  let console := [Print ("Inspection folder: " +:+ input_folder)] in
  match image_makedirs with
  | Some e => (Raises e, console)
  | None =>
      match process_images_walk input_folder image_walk (State ∅ console) with
      | (Raises e, st) => (Raises e, trace st)
      | (Returns _, st1) =>
          match video_makedirs with
          | Some e => (Raises e, trace st1)
          | None =>
              match process_videos_walk input_folder video_walk
                      (State ∅ (trace st1)) with
              | (Raises e, st) => (Raises e, trace st)
              | (Returns _, st2) =>
                  (Returns tt,
                   trace st2
                     ++ [Print (newline +:+
                          "Processing complete. Duplicates have been moved to the '_duplicates' folder.")])
              end
          end
      end
  end.

End Walk.

(** Every file of [seen] is the entry of its fingerprint or has been moved. *)
Definition kept_or_moved (m : pipeline) (seen : list (string * string))
    (hashes : gmap string (entry m)) (moved : list string) : Prop :=
  forall h p,
    (h, p) ∈ seen ->
    (exists v, hashes !! h = Some v /\ stored_path m v = p) \/ p ∈ moved.

(** The reading under which the deeper candidate always wins: whenever
    the candidate is deeper than the stored path, the iteration leaves
    the entry of the fingerprint replaced by the candidate and the stored
    path moved. *)
Definition deeper_always_replaces (m : pipeline) (duplicates_folder : string)
    (f : candidate m) (st : state (entry m)) : Prop :=
  forall h v old,
    observed m f = Returns (h, v) ->
    encountered_hashes st !! h = Some old ->
    depth (stored_path m old) < depth (file_path m f) ->
    encountered_hashes (snd (iteration m duplicates_folder f st))
      = <[h := v]> (encountered_hashes st)
    /\ Moved (stored_path m old) (quarantine duplicates_folder (stored_path m old))
         ∈ trace (snd (iteration m duplicates_folder f st)).

(** The not-deeper copy of the clip, met while it cannot be moved. *)
Definition shallow_clip_stuck : video_file :=
  VideoFile "photos/clip.mp4" (Returns clip_digest) (Returns 1024%Z)
            (Some permission_denied).

(** The candidate is strictly deeper than the path stored for its
    fingerprint. *)
Definition deeper_than_stored (m : pipeline) (f : candidate m)
    (hashes : gmap string (entry m)) : bool :=
  match observed m f with
  | Returns (h, _) =>
      match hashes !! h with
      | Some old => Nat.ltb (depth (stored_path m old)) (depth (file_path m f))
      | None => false
      end
  | Raises _ => false
  end.

(** The fingerprint and path of a file the loop got a fingerprint for,
    left out only when the file is deeper than the stored path and the
    [try] block raises, that is, when moving the stored path fails. *)
Definition consideration (m : pipeline) (duplicates_folder : string) (f : candidate m)
    (hashes : gmap string (entry m)) : list (string * string) :=
  match deeper_than_stored m f hashes,
        raised_in m duplicates_folder f (State hashes []) with
  | true, Some _ => []
  | _, _ => sighting m f
  end.

Fixpoint considered (m : pipeline) (duplicates_folder : string)
    (files : list (candidate m)) (hashes : gmap string (entry m)) : list (string * string) :=
  match files with
  | [] => []
  | f :: rest =>
      consideration m duplicates_folder f hashes
        ++ considered m duplicates_folder rest
             (encountered_hashes
                (snd (iteration m duplicates_folder f (State hashes []))))
  end.

(** * Properties *)

(** ** One iteration, case by case *)

Ltac unfold_loop :=
  unfold iteration, try_block, observed, fingerprint, file_path, move_answer,
    stored_path, error_line, entry, candidate,
    image_iteration, video_iteration, try_except, image_try, video_try,
    shutil_move, print, emit, set_hash, get_hashes, lift, raise,
    mbind, M_bind, bind, depth, quarantine in *.

Ltac case_outcomes :=
  repeat match goal with
  | H : Returns _ = Returns _ |- _ => inversion H; subst; clear H
  | H : Raises _ = Raises _ |- _ => inversion H; subst; clear H
  | H : Returns _ = Raises _ |- _ => discriminate H
  | H : Raises _ = Returns _ |- _ => discriminate H
  | H : context [match ?x with Returns _ => _ | Raises _ => _ end] |- _ =>
      destruct x eqn:?
  end.

Section Iteration.
Context (m : pipeline) (duplicates_folder : string).
Implicit Types (f : candidate m) (st : state (entry m)) (v old : entry m).

(** A call made before the dictionary is consulted raises. *)
Lemma iteration_unreadable f st e :
  observed m f = Raises e ->
  iteration m duplicates_folder f st =
    (Returns tt,
     State (encountered_hashes st)
           (trace st ++ [Print (error_line m (file_path m f) e)])).
Proof.
  destruct m; unfold_loop; intros H; case_outcomes; reflexivity.
Qed.

Lemma observed_path f h v :
  observed m f = Returns (h, v) -> stored_path m v = file_path m f.
Proof.
  destruct m; unfold_loop; intros H; case_outcomes; reflexivity.
Qed.

Lemma observed_fingerprint f h v :
  observed m f = Returns (h, v) -> fingerprint m f = Returns h.
Proof.
  destruct m; unfold_loop; intros H; case_outcomes; reflexivity.
Qed.

(** First sighting of a fingerprint. *)
Lemma iteration_first_sighting f st h v :
  observed m f = Returns (h, v) ->
  encountered_hashes st !! h = None ->
  iteration m duplicates_folder f st =
    (Returns tt, State (<[h := v]> (encountered_hashes st)) (trace st)).
Proof.
  destruct m; unfold_loop; intros H Hl; case_outcomes; simpl;
    rewrite Hl; reflexivity.
Qed.

(** The candidate is deeper than the stored path and the move returns. *)
Lemma iteration_deeper_moved f st h v old :
  observed m f = Returns (h, v) ->
  encountered_hashes st !! h = Some old ->
  depth (stored_path m old) < depth (file_path m f) ->
  move_answer m f = None ->
  iteration m duplicates_folder f st =
    (Returns tt,
     State (<[h := v]> (encountered_hashes st))
           (trace st
             ++ [Print ("Moving duplicate (parent folder): " +:+ stored_path m old);
                 Moved (stored_path m old)
                       (quarantine duplicates_folder (stored_path m old))])).
Proof.
  destruct m; unfold_loop; intros H Hl Hd Hm; case_outcomes; simpl;
    rewrite Hl; try destruct old as [old_path old_size]; simpl in *;
    apply Nat.ltb_lt in Hd; rewrite Hd, Hm; simpl;
    rewrite <- ?app_assoc; reflexivity.
Qed.

(** The candidate is deeper than the stored path and the move raises. *)
Lemma iteration_deeper_move_raised f st h v old e :
  observed m f = Returns (h, v) ->
  encountered_hashes st !! h = Some old ->
  depth (stored_path m old) < depth (file_path m f) ->
  move_answer m f = Some e ->
  iteration m duplicates_folder f st =
    (Returns tt,
     State (encountered_hashes st)
           (trace st
             ++ [Print ("Moving duplicate (parent folder): " +:+ stored_path m old);
                 MoveRaised (stored_path m old)
                            (quarantine duplicates_folder (stored_path m old)) e;
                 Print (error_line m (file_path m f) e)])).
Proof.
  destruct m; unfold_loop; intros H Hl Hd Hm; case_outcomes; simpl;
    rewrite Hl; try destruct old as [old_path old_size]; simpl in *;
    apply Nat.ltb_lt in Hd; rewrite Hd, Hm; simpl;
    rewrite <- ?app_assoc; reflexivity.
Qed.

(** The candidate is not deeper than the stored path and the move returns. *)
Lemma iteration_not_deeper_moved f st h v old :
  observed m f = Returns (h, v) ->
  encountered_hashes st !! h = Some old ->
  depth (file_path m f) <= depth (stored_path m old) ->
  move_answer m f = None ->
  iteration m duplicates_folder f st =
    (Returns tt,
     State (encountered_hashes st)
           (trace st
             ++ [Print ("Moving duplicate (subfolder): " +:+ file_path m f);
                 Moved (file_path m f)
                       (quarantine duplicates_folder (file_path m f))])).
Proof.
  destruct m; unfold_loop; intros H Hl Hd Hm; case_outcomes; simpl;
    rewrite Hl; try destruct old as [old_path old_size]; simpl in *;
    apply Nat.ltb_ge in Hd; rewrite Hd, Hm; simpl;
    rewrite <- ?app_assoc; reflexivity.
Qed.

(** The candidate is not deeper than the stored path and the move raises. *)
Lemma iteration_not_deeper_move_raised f st h v old e :
  observed m f = Returns (h, v) ->
  encountered_hashes st !! h = Some old ->
  depth (file_path m f) <= depth (stored_path m old) ->
  move_answer m f = Some e ->
  iteration m duplicates_folder f st =
    (Returns tt,
     State (encountered_hashes st)
           (trace st
             ++ [Print ("Moving duplicate (subfolder): " +:+ file_path m f);
                 MoveRaised (file_path m f)
                            (quarantine duplicates_folder (file_path m f)) e;
                 Print (error_line m (file_path m f) e)])).
Proof.
  destruct m; unfold_loop; intros H Hl Hd Hm; case_outcomes; simpl;
    rewrite Hl; try destruct old as [old_path old_size]; simpl in *;
    apply Nat.ltb_ge in Hd; rewrite Hd, Hm; simpl;
    rewrite <- ?app_assoc; reflexivity.
Qed.

(** When the [try] block raises. *)
Lemma raised_in_cases f st :
  raised_in m duplicates_folder f st =
    match observed m f with
    | Raises e => Some e
    | Returns (h, _) =>
        match encountered_hashes st !! h with
        | Some _ => move_answer m f
        | None => None
        end
    end.
Proof.
  unfold raised_in; destruct m; unfold_loop; simpl.
  - destruct (image_hash (img_resized f)) as [h|e]; simpl; [|reflexivity].
    destruct (encountered_hashes st !! h) as [old|]; [|reflexivity].
    destruct (Nat.ltb _ _), (img_move f); reflexivity.
  - destruct (vid_sha256 f) as [h|e]; simpl; [|reflexivity].
    destruct (vid_getsize f) as [size|e]; simpl; [|reflexivity].
    destruct (encountered_hashes st !! h) as [[old_path old_size]|]; [|reflexivity].
    destruct (Nat.ltb _ _), (vid_move f); reflexivity.
Qed.

Lemma iteration_observation f st :
  observation m duplicates_folder f st
    (raised_in m duplicates_folder f st)
    (snd (iteration m duplicates_folder f st)).
Proof.
  rewrite raised_in_cases.
  destruct (observed m f) as [[h v]|e] eqn:Ho.
  - destruct (encountered_hashes st !! h) as [old|] eqn:Hl.
    + destruct (le_lt_dec (depth (file_path m f)) (depth (stored_path m old))) as [Hd|Hd];
        destruct (move_answer m f) as [e|] eqn:Hm.
      * erewrite iteration_not_deeper_move_raised by eassumption.
        eapply obs_quarantine_raised; eassumption.
      * erewrite iteration_not_deeper_moved by eassumption.
        eapply obs_quarantine; eassumption.
      * erewrite iteration_deeper_move_raised by eassumption.
        eapply obs_replace_raised; eassumption.
      * erewrite iteration_deeper_moved by eassumption.
        eapply obs_replace; eassumption.
    + erewrite iteration_first_sighting by eassumption.
      eapply obs_record; eassumption.
  - erewrite iteration_unreadable by eassumption.
    apply obs_unreadable; assumption.
Qed.

(** The handler catches every exception: an iteration never raises. *)
Lemma iteration_returns f st :
  fst (iteration m duplicates_folder f st) = Returns tt.
Proof.
  destruct m; unfold_loop; simpl.
  - destruct (image_hash (img_resized f)) as [h|e]; simpl; [|reflexivity].
    destruct (encountered_hashes st !! h) as [old|]; [|reflexivity].
    destruct (Nat.ltb _ _), (img_move f); reflexivity.
  - destruct (vid_sha256 f) as [h|e]; simpl; [|reflexivity].
    destruct (vid_getsize f) as [size|e]; simpl; [|reflexivity].
    destruct (encountered_hashes st !! h) as [[old_path old_size]|]; [|reflexivity].
    destruct (Nat.ltb _ _), (vid_move f); reflexivity.
Qed.

End Iteration.

(** ** The loop as a fold of [step] *)

Section Loop.
Context (m : pipeline) (duplicates_folder : string).
Implicit Types (f : candidate m) (st : state (entry m)) (files : list (candidate m)).

Lemma iteration_step f st :
  iteration m duplicates_folder f st =
    (Returns tt,
     State (fst (step m duplicates_folder f (encountered_hashes st)))
           (trace st ++ snd (step m duplicates_folder f (encountered_hashes st)))).
Proof.
  unfold step.
  destruct (observed m f) as [[h v]|e] eqn:Ho.
  - destruct (encountered_hashes st !! h) as [old|] eqn:Hl.
    + destruct (Nat.ltb _ _) eqn:Hd; destruct (move_answer m f) as [e|] eqn:Hm;
        simpl.
      * apply Nat.ltb_lt in Hd. eapply iteration_deeper_move_raised; eassumption.
      * apply Nat.ltb_lt in Hd. eapply iteration_deeper_moved; eassumption.
      * apply Nat.ltb_ge in Hd. eapply iteration_not_deeper_move_raised; eassumption.
      * apply Nat.ltb_ge in Hd. eapply iteration_not_deeper_moved; eassumption.
    + simpl. rewrite app_nil_r. eapply iteration_first_sighting; eassumption.
  - simpl. apply iteration_unreadable; assumption.
Qed.

Lemma for_each_steps files st :
  for_each (iteration m duplicates_folder) files st =
    (Returns tt,
     State (fst (steps m duplicates_folder files (encountered_hashes st)))
           (trace st ++ snd (steps m duplicates_folder files (encountered_hashes st)))).
Proof.
  revert st; induction files as [|f rest IH]; intros st; simpl.
  - rewrite app_nil_r. destruct st; reflexivity.
  - unfold mbind, M_bind, bind. rewrite iteration_step, IH. simpl.
    destruct (step m duplicates_folder f (encountered_hashes st)) as [h1 e1]; simpl.
    destruct (steps m duplicates_folder rest h1) as [h2 e2]; simpl.
    rewrite app_assoc. reflexivity.
Qed.

Lemma iterate_steps files st :
  iterate m duplicates_folder files st =
    State (fst (steps m duplicates_folder files (encountered_hashes st)))
          (trace st ++ snd (steps m duplicates_folder files (encountered_hashes st))).
Proof. unfold iterate. rewrite for_each_steps. reflexivity. Qed.

Lemma steps_app files1 files2 hashes :
  steps m duplicates_folder (files1 ++ files2) hashes =
    (fst (steps m duplicates_folder files2
            (fst (steps m duplicates_folder files1 hashes))),
     snd (steps m duplicates_folder files1 hashes)
       ++ snd (steps m duplicates_folder files2
                 (fst (steps m duplicates_folder files1 hashes)))).
Proof.
  revert hashes; induction files1 as [|f rest IH]; intros hashes; simpl.
  - destruct (steps m duplicates_folder files2 hashes); reflexivity.
  - destruct (step m duplicates_folder f hashes) as [h1 e1].
    rewrite IH.
    destruct (steps m duplicates_folder rest h1) as [h2 e2]; simpl.
    rewrite app_assoc. reflexivity.
Qed.

End Loop.

Lemma run_steps m input_folder files :
  run m input_folder files =
    State (fst (steps m (join input_folder DUPLICATE_FOLDER_NAME) files ∅))
          (preamble m input_folder
             ++ snd (steps m (join input_folder DUPLICATE_FOLDER_NAME) files ∅)).
Proof.
  destruct m.
  - exact (f_equal snd
             (for_each_steps Images (join input_folder DUPLICATE_FOLDER_NAME) files
                (State ∅ (preamble Images input_folder)))).
  - exact (f_equal snd
             (for_each_steps Videos (join input_folder DUPLICATE_FOLDER_NAME) files
                (State ∅ (preamble Videos input_folder)))).
Qed.

(** ** The decision taken at one observation *)

(** C1, as the code has it.  For a candidate whose fingerprint [h] was
    computed, one iteration of either loop does the following.  If [h]
    is in the dictionary with a stored path shallower than the candidate
    (strictly fewer separators), [shutil.move] is called on the stored
    path with its quarantine path; when the call returns, the entry of
    [h] becomes the candidate, and when it raises, the dictionary is
    unchanged and the error line of the candidate is printed.  If the
    candidate is not deeper (equal depth included), [shutil.move] is
    called on the candidate and the dictionary is unchanged, whether the
    call returns or raises.  If [h] is absent, the candidate is inserted
    and nothing is moved or printed. *)
Theorem observe_decision (m : pipeline) (duplicates_folder : string)
    (f : candidate m) (st : state (entry m)) (h : string) (v : entry m) :
  observed m f = Returns (h, v) ->
  let st' := snd (iteration m duplicates_folder f st) in
  let error_line_of e :=
    (match m with
     | Images => "Error processing image "
     | Videos => "Error processing video "
     end) +:+ file_path m f +:+ ": " +:+ exn_str e in
  stored_path m v = file_path m f
  /\ (forall old,
        encountered_hashes st !! h = Some old ->
        depth (stored_path m old) < depth (file_path m f) ->
        match move_answer m f with
        | None =>
            encountered_hashes st' = <[h := v]> (encountered_hashes st)
            /\ trace st' =
                 trace st
                   ++ [Print ("Moving duplicate (parent folder): " +:+ stored_path m old);
                       Moved (stored_path m old)
                             (join duplicates_folder (basename (stored_path m old)))]
        | Some e =>
            encountered_hashes st' = encountered_hashes st
            /\ trace st' =
                 trace st
                   ++ [Print ("Moving duplicate (parent folder): " +:+ stored_path m old);
                       MoveRaised (stored_path m old)
                                  (join duplicates_folder (basename (stored_path m old))) e;
                       Print (error_line_of e)]
        end)
  /\ (forall old,
        encountered_hashes st !! h = Some old ->
        depth (file_path m f) <= depth (stored_path m old) ->
        encountered_hashes st' = encountered_hashes st
        /\ trace st' =
             trace st
               ++ Print ("Moving duplicate (subfolder): " +:+ file_path m f)
                  :: match move_answer m f with
                     | None =>
                         [Moved (file_path m f)
                                (join duplicates_folder (basename (file_path m f)))]
                     | Some e =>
                         [MoveRaised (file_path m f)
                                     (join duplicates_folder (basename (file_path m f))) e;
                          Print (error_line_of e)]
                     end)
  /\ (encountered_hashes st !! h = None ->
        encountered_hashes st' = <[h := v]> (encountered_hashes st)
        /\ trace st' = trace st).
Proof.
  intros Ho st' error_line_of. subst st'.
  assert (Hline : forall e, error_line_of e = error_line m (file_path m f) e)
    by (intros e; subst error_line_of; destruct m; reflexivity).
  split; [eapply observed_path; eassumption|].
  split; [|split].
  - intros old Hl Hd. destruct (move_answer m f) as [e|] eqn:Hm.
    + erewrite iteration_deeper_move_raised by eassumption.
      rewrite Hline. split; reflexivity.
    + erewrite iteration_deeper_moved by eassumption. split; reflexivity.
  - intros old Hl Hd. destruct (move_answer m f) as [e|] eqn:Hm.
    + erewrite iteration_not_deeper_move_raised by eassumption.
      rewrite Hline. split; reflexivity.
    + erewrite iteration_not_deeper_moved by eassumption. split; reflexivity.
  - intros Hl. erewrite iteration_first_sighting by eassumption.
    split; reflexivity.
Qed.

Lemma observe_decision_witness :
  observed Videos deep_clip = Returns (clip_digest, ("photos/2020/clip.mp4", 1024%Z))
  /\ encountered_hashes shallow_recorded !! clip_digest = Some ("photos/clip.mp4", 1024%Z)
  /\ depth "photos/clip.mp4" < depth "photos/2020/clip.mp4"
  /\ encountered_hashes
       (snd (iteration Videos "photos/_duplicates" deep_clip shallow_recorded))
     = <[clip_digest := ("photos/2020/clip.mp4", 1024%Z)]>
         (encountered_hashes shallow_recorded)
  /\ trace (snd (iteration Videos "photos/_duplicates" deep_clip shallow_recorded))
     = [Print "Moving duplicate (parent folder): photos/clip.mp4";
        Moved "photos/clip.mp4" "photos/_duplicates/clip.mp4"]
  /\ trace (snd (iteration Videos "photos/_duplicates" deep_clip_stuck shallow_recorded))
     = [Print "Moving duplicate (parent folder): photos/clip.mp4";
        MoveRaised "photos/clip.mp4" "photos/_duplicates/clip.mp4" permission_denied;
        Print "Error processing video photos/2020/clip.mp4: [Errno 13] Permission denied: 'photos/clip.mp4'"]
  /\ encountered_hashes
       (snd (iteration Videos "photos/_duplicates" shallow_clip deep_recorded))
     = encountered_hashes deep_recorded
  /\ trace (snd (iteration Videos "photos/_duplicates" shallow_clip_stuck deep_recorded))
     = [Print "Moving duplicate (subfolder): photos/clip.mp4";
        MoveRaised "photos/clip.mp4" "photos/_duplicates/clip.mp4" permission_denied;
        Print "Error processing video photos/clip.mp4: [Errno 13] Permission denied: 'photos/clip.mp4'"]
  /\ encountered_hashes
       (snd (iteration Videos "photos/_duplicates" deep_clip initial))
     = <[clip_digest := ("photos/2020/clip.mp4", 1024%Z)]> ∅.
Proof.
  assert (Ho : observed Videos deep_clip
               = Returns (clip_digest, ("photos/2020/clip.mp4", 1024%Z)))
    by reflexivity.
  assert (Hl : encountered_hashes shallow_recorded !! clip_digest
               = Some ("photos/clip.mp4", 1024%Z))
    by (vm_compute; reflexivity).
  assert (Hl' : encountered_hashes deep_recorded !! clip_digest
                = Some ("photos/2020/clip.mp4", 1024%Z))
    by (vm_compute; reflexivity).
  assert (Hd : depth "photos/clip.mp4" < depth "photos/2020/clip.mp4")
    by (vm_compute; lia).
  assert (Hd' : depth "photos/clip.mp4" <= depth "photos/2020/clip.mp4")
    by (vm_compute; lia).
  destruct (observe_decision Videos "photos/_duplicates" deep_clip
              shallow_recorded _ _ Ho) as (_ & Hdeeper & _ & _).
  destruct (Hdeeper _ Hl Hd) as [Ht Htr].
  destruct (observe_decision Videos "photos/_duplicates" deep_clip_stuck
              shallow_recorded _ _ eq_refl) as (_ & Hstuck & _ & _).
  destruct (Hstuck _ Hl Hd) as [_ Htr_stuck].
  destruct (observe_decision Videos "photos/_duplicates" shallow_clip
              deep_recorded _ _ eq_refl) as (_ & _ & Hnot & _).
  destruct (Hnot _ Hl' Hd') as [Ht2 _].
  destruct (observe_decision Videos "photos/_duplicates" shallow_clip_stuck
              deep_recorded _ _ eq_refl) as (_ & _ & Hnot_stuck & _).
  destruct (Hnot_stuck _ Hl' Hd') as [_ Htr2].
  destruct (observe_decision Videos "photos/_duplicates" deep_clip
              initial _ _ Ho) as (_ & _ & _ & Hnew).
  destruct Hnew as [Ht3 _]; [vm_compute; reflexivity|].
  split; [exact Ho|]. split; [exact Hl|]. split; [exact Hd|].
  split; [exact Ht|]. split; [exact Htr|]. split; [exact Htr_stuck|].
  split; [exact Ht2|]. split; [exact Htr2|exact Ht3].
Defined.

(** C1, refuted as stated.  The shallow copy is recorded and the deeper
    copy is met, but moving the shallow copy raises: the stored path is
    not moved and the entry is not replaced by the candidate. *)
Lemma deeper_candidate_may_not_replace :
  observed Videos deep_clip_stuck
    = Returns (clip_digest, ("photos/2020/clip.mp4", 1024%Z))
  /\ encountered_hashes shallow_recorded !! clip_digest
     = Some ("photos/clip.mp4", 1024%Z)
  /\ depth "photos/clip.mp4" < depth "photos/2020/clip.mp4"
  /\ encountered_hashes
       (snd (iteration Videos "photos/_duplicates" deep_clip_stuck shallow_recorded))
     = encountered_hashes shallow_recorded
  /\ moved_sources
       (trace (snd (iteration Videos "photos/_duplicates" deep_clip_stuck
                      shallow_recorded)))
     = []
  /\ ~ deeper_always_replaces Videos "photos/_duplicates" deep_clip_stuck
         shallow_recorded.
Proof.
  assert (Hl : encountered_hashes shallow_recorded !! clip_digest
               = Some ("photos/clip.mp4", 1024%Z))
    by (vm_compute; reflexivity).
  assert (Hd : depth "photos/clip.mp4" < depth "photos/2020/clip.mp4")
    by (vm_compute; lia).
  assert (Hafter : encountered_hashes
            (snd (iteration Videos "photos/_duplicates" deep_clip_stuck
                    shallow_recorded)) !! clip_digest
          = Some ("photos/clip.mp4", 1024%Z))
    by (vm_compute; reflexivity).
  split; [reflexivity|]. split; [exact Hl|]. split; [exact Hd|].
  split; [vm_compute; reflexivity|]. split; [vm_compute; reflexivity|].
  intros Hclaim.
  destruct (Hclaim clip_digest ("photos/2020/clip.mp4", 1024%Z)
              ("photos/clip.mp4", 1024%Z) eq_refl Hl Hd) as [Htable _].
  pose proof (f_equal (fun t => t !! clip_digest) Htable) as Hentry.
  simpl in Hentry. rewrite lookup_insert_eq in Hentry.
  pose proof (eq_trans (eq_sym Hentry) Hafter) as Habsurd.
  discriminate Habsurd.
Qed.

(** ** A move that raises *)

(** C4, as the code has it.  When the candidate is deeper than the stored
    path and moving the stored path raises, the assignment to the
    dictionary is never reached: the move comes first.  The dictionary is
    left as it was (the entry still names the stored path, which was not
    moved), the exception is caught and printed with the candidate's
    path, and the iteration returns. *)
Theorem failed_move_keeps_entry (m : pipeline) (duplicates_folder : string)
    (f : candidate m) (st : state (entry m)) (h : string) (v old : entry m)
    (e : exn) :
  observed m f = Returns (h, v) ->
  encountered_hashes st !! h = Some old ->
  depth (stored_path m old) < depth (file_path m f) ->
  move_answer m f = Some e ->
  let st' := snd (iteration m duplicates_folder f st) in
  fst (iteration m duplicates_folder f st) = Returns tt
  /\ raised_in m duplicates_folder f st = Some e
  /\ encountered_hashes st' = encountered_hashes st
  /\ encountered_hashes st' !! h = Some old
  /\ trace st' =
       trace st
         ++ [Print ("Moving duplicate (parent folder): " +:+ stored_path m old);
             MoveRaised (stored_path m old)
                        (quarantine duplicates_folder (stored_path m old)) e;
             Print (error_line m (file_path m f) e)].
Proof.
  intros Ho Hl Hd Hm st'. subst st'.
  split; [apply iteration_returns|].
  split; [rewrite raised_in_cases, Ho, Hl; exact Hm|].
  erewrite iteration_deeper_move_raised by eassumption. simpl.
  repeat split; assumption.
Qed.

Lemma failed_move_keeps_entry_witness :
  observed Videos deep_clip_stuck
    = Returns (clip_digest, ("photos/2020/clip.mp4", 1024%Z))
  /\ encountered_hashes shallow_recorded !! clip_digest
     = Some ("photos/clip.mp4", 1024%Z)
  /\ depth "photos/clip.mp4" < depth "photos/2020/clip.mp4"
  /\ move_answer Videos deep_clip_stuck = Some permission_denied
  /\ encountered_hashes
       (snd (iteration Videos "photos/_duplicates" deep_clip_stuck shallow_recorded))
     = encountered_hashes shallow_recorded
  /\ trace (snd (iteration Videos "photos/_duplicates" deep_clip_stuck shallow_recorded))
     = [Print "Moving duplicate (parent folder): photos/clip.mp4";
        MoveRaised "photos/clip.mp4" "photos/_duplicates/clip.mp4" permission_denied;
        Print (error_line Videos "photos/2020/clip.mp4" permission_denied)].
Proof.
  assert (Hl : encountered_hashes shallow_recorded !! clip_digest
               = Some ("photos/clip.mp4", 1024%Z))
    by (vm_compute; reflexivity).
  assert (Hd : depth "photos/clip.mp4" < depth "photos/2020/clip.mp4")
    by (vm_compute; lia).
  destruct (failed_move_keeps_entry Videos "photos/_duplicates" deep_clip_stuck
              shallow_recorded clip_digest ("photos/2020/clip.mp4", 1024%Z)
              ("photos/clip.mp4", 1024%Z) permission_denied eq_refl Hl Hd eq_refl)
    as (_ & _ & Hsame & _ & Htrace).
  split; [reflexivity|]. split; [exact Hl|]. split; [exact Hd|].
  split; [reflexivity|]. split; [exact Hsame|exact Htrace].
Defined.

(** C4, refuted as stated.  The shallow copy is recorded, the deeper copy
    is met and moving the shallow one raises: the entry is still the
    shallow copy, not the candidate. *)
Lemma updated_before_move_fails :
  observed Videos deep_clip_stuck
    = Returns (clip_digest, ("photos/2020/clip.mp4", 1024%Z))
  /\ encountered_hashes shallow_recorded !! clip_digest
     = Some ("photos/clip.mp4", 1024%Z)
  /\ depth "photos/clip.mp4" < depth "photos/2020/clip.mp4"
  /\ move_answer Videos deep_clip_stuck = Some permission_denied
  /\ encountered_hashes
       (snd (iteration Videos "photos/_duplicates" deep_clip_stuck shallow_recorded))
       !! clip_digest
     = Some ("photos/clip.mp4", 1024%Z)
  /\ ~ updated_before_move Videos "photos/_duplicates" deep_clip_stuck shallow_recorded.
Proof.
  assert (Hl : encountered_hashes shallow_recorded !! clip_digest
               = Some ("photos/clip.mp4", 1024%Z))
    by (vm_compute; reflexivity).
  assert (Hd : depth "photos/clip.mp4" < depth "photos/2020/clip.mp4")
    by (vm_compute; lia).
  assert (Hafter : encountered_hashes
            (snd (iteration Videos "photos/_duplicates" deep_clip_stuck
                    shallow_recorded)) !! clip_digest
          = Some ("photos/clip.mp4", 1024%Z))
    by (vm_compute; reflexivity).
  repeat split; try assumption; try reflexivity.
  intros Hclaim.
  specialize (Hclaim clip_digest ("photos/2020/clip.mp4", 1024%Z)
                ("photos/clip.mp4", 1024%Z) permission_denied
                eq_refl Hl Hd eq_refl).
  pose proof (eq_trans (eq_sym Hclaim) Hafter) as Habsurd.
  discriminate Habsurd.
Qed.

(** ** The survivor of a fingerprint *)

Section Survivor.
Context (m : pipeline) (duplicates_folder : string).
Implicit Types (f : candidate m) (hashes : gmap string (entry m))
  (seen : list (string * string)).

Lemma completion_cases f hashes :
  completion m duplicates_folder f hashes =
    match observed m f with
    | Raises _ => []
    | Returns (h, _) =>
        match hashes !! h with
        | Some _ =>
            match move_answer m f with
            | None => [(h, file_path m f)]
            | Some _ => []
            end
        | None => [(h, file_path m f)]
        end
    end.
Proof.
  unfold completion, sighting. rewrite raised_in_cases. simpl.
  destruct (observed m f) as [[h v]|e]; [|reflexivity].
  destruct (hashes !! h); [|reflexivity].
  destruct (move_answer m f); reflexivity.
Qed.

Lemma step_keeps_deepest f hashes seen :
  keeps_deepest m seen hashes -> all_recorded m seen hashes ->
  keeps_deepest m (seen ++ completion m duplicates_folder f hashes)
                  (fst (step m duplicates_folder f hashes))
  /\ all_recorded m (seen ++ completion m duplicates_folder f hashes)
                    (fst (step m duplicates_folder f hashes)).
Proof.
  intros Hk Hr. rewrite completion_cases. unfold step.
  destruct (observed m f) as [[h v]|e] eqn:Ho;
    [|simpl; rewrite app_nil_r; split; assumption].
  pose proof (observed_path m f h v Ho) as Hp.
  assert (Hins : forall old,
            hashes !! h = old ->
            (forall o, old = Some o -> depth (stored_path m o) <= depth (file_path m f)) ->
            keeps_deepest m (seen ++ [(h, file_path m f)]) (<[h := v]> hashes)
            /\ all_recorded m (seen ++ [(h, file_path m f)]) (<[h := v]> hashes)).
  { intros old Hl Hle. split.
    - intros h' v' Hv'. destruct (decide (h = h')) as [<-|Hne].
      + rewrite lookup_insert_eq in Hv'. inversion Hv'; subst v'. rewrite Hp.
        split; [apply elem_of_app; right; apply list_elem_of_singleton; reflexivity|].
        intros p [Hin|Hin]%elem_of_app.
        * destruct (Hr _ _ Hin) as [o Ho']. destruct (Hk _ _ Ho') as [_ Hmax].
          specialize (Hmax _ Hin). rewrite Ho' in Hl. specialize (Hle o (eq_sym Hl)). lia.
        * apply list_elem_of_singleton in Hin. inversion Hin; subst p. lia.
      + rewrite lookup_insert_ne in Hv' by assumption.
        destruct (Hk _ _ Hv') as [Hin Hmax]. split.
        * apply elem_of_app; left; assumption.
        * intros p [Hin'|Hin']%elem_of_app; [apply Hmax; assumption|].
          apply list_elem_of_singleton in Hin'. inversion Hin'; subst. contradiction.
    - intros h' p [Hin|Hin]%elem_of_app.
      + apply lookup_insert_is_Some. destruct (decide (h = h')); [left; assumption|].
        right; split; [assumption|]. eapply Hr; eassumption.
      + apply list_elem_of_singleton in Hin. inversion Hin; subst.
        apply lookup_insert_is_Some. left; reflexivity. }
  destruct (hashes !! h) as [old|] eqn:Hl.
  - destruct (Nat.ltb _ _) eqn:Hd; destruct (move_answer m f) as [e|] eqn:Hm; simpl.
    + rewrite app_nil_r; split; assumption.
    + apply Nat.ltb_lt in Hd. apply (Hins (Some old) eq_refl).
      intros o Heq; inversion Heq; subst o. lia.
    + rewrite app_nil_r; split; assumption.
    + apply Nat.ltb_ge in Hd. split.
      * intros h' v' Hv'. destruct (Hk _ _ Hv') as [Hin Hmax]. split.
        -- apply elem_of_app; left; assumption.
        -- intros p [Hin'|Hin']%elem_of_app; [apply Hmax; assumption|].
           apply list_elem_of_singleton in Hin'. inversion Hin'; subst.
           rewrite Hl in Hv'. inversion Hv'; subst v'. assumption.
      * intros h' p [Hin|Hin]%elem_of_app; [eapply Hr; eassumption|].
        apply list_elem_of_singleton in Hin. inversion Hin; subst.
        rewrite Hl. eexists; reflexivity.
  - simpl. apply (Hins None eq_refl). intros o Heq; discriminate Heq.
Qed.

Lemma steps_keeps_deepest files hashes seen :
  keeps_deepest m seen hashes -> all_recorded m seen hashes ->
  keeps_deepest m (seen ++ completed m duplicates_folder files hashes)
                  (fst (steps m duplicates_folder files hashes))
  /\ all_recorded m (seen ++ completed m duplicates_folder files hashes)
                    (fst (steps m duplicates_folder files hashes)).
Proof.
  revert hashes seen; induction files as [|f rest IH]; intros hashes seen Hk Hr; simpl.
  - rewrite app_nil_r; split; assumption.
  - rewrite iteration_step; simpl.
    destruct (step_keeps_deepest f hashes seen Hk Hr) as [Hk1 Hr1].
    destruct (step m duplicates_folder f hashes) as [h1 e1]; simpl in *.
    destruct (IH h1 _ Hk1 Hr1) as [Hk2 Hr2].
    destruct (steps m duplicates_folder rest h1) as [h2 e2]; simpl in *.
    rewrite app_assoc. split; assumption.
Qed.

End Survivor.

Lemma run_prefix m input_folder files k :
  run m input_folder files =
    iterate m (join input_folder DUPLICATE_FOLDER_NAME) (drop k files)
      (run m input_folder (take k files)).
Proof.
  rewrite iterate_steps, !run_steps; simpl.
  rewrite <- (take_drop k files) at 1 2.
  rewrite steps_app; simpl. reflexivity.
Qed.

Section Considered.
Context (m : pipeline) (duplicates_folder : string).
Implicit Types (f : candidate m) (hashes : gmap string (entry m))
  (seen : list (string * string)).

Lemma consideration_cases f hashes :
  consideration m duplicates_folder f hashes =
    match observed m f with
    | Raises _ => []
    | Returns (h, _) =>
        match hashes !! h with
        | Some old =>
            if Nat.ltb (depth (stored_path m old)) (depth (file_path m f)) then
              match move_answer m f with
              | None => [(h, file_path m f)]
              | Some _ => []
              end
            else [(h, file_path m f)]
        | None => [(h, file_path m f)]
        end
    end.
Proof.
  unfold consideration, deeper_than_stored, sighting. rewrite raised_in_cases. simpl.
  destruct (observed m f) as [[h v]|e]; [|reflexivity].
  destruct (hashes !! h) as [old|]; [|reflexivity].
  destruct (Nat.ltb _ _); destruct (move_answer m f); reflexivity.
Qed.

Lemma step_keeps_deepest_considered f hashes seen :
  keeps_deepest m seen hashes -> all_recorded m seen hashes ->
  keeps_deepest m (seen ++ consideration m duplicates_folder f hashes)
                  (fst (step m duplicates_folder f hashes))
  /\ all_recorded m (seen ++ consideration m duplicates_folder f hashes)
                    (fst (step m duplicates_folder f hashes)).
Proof.
  intros Hk Hr.
  destruct (deeper_than_stored m f hashes) eqn:Hdeeper.
  - (* deeper than the stored path: what the completed files give *)
    pose proof (step_keeps_deepest m duplicates_folder f hashes seen Hk Hr) as Hstep.
    replace (consideration m duplicates_folder f hashes)
      with (completion m duplicates_folder f hashes); [exact Hstep|].
    unfold consideration, completion. rewrite Hdeeper.
    destruct (raised_in m duplicates_folder f (State hashes [])); reflexivity.
  - (* not deeper, or no entry, or no fingerprint *)
    rewrite consideration_cases. unfold deeper_than_stored in Hdeeper. unfold step.
    destruct (observed m f) as [[h v]|e] eqn:Ho;
      [|simpl; rewrite app_nil_r; split; assumption].
    destruct (hashes !! h) as [old|] eqn:Hl.
    + rewrite Hdeeper. apply Nat.ltb_ge in Hdeeper.
      assert (Hsame : keeps_deepest m (seen ++ [(h, file_path m f)]) hashes
                      /\ all_recorded m (seen ++ [(h, file_path m f)]) hashes).
      { split.
        - intros h' v' Hv'. destruct (Hk _ _ Hv') as [Hin Hmax]. split.
          + apply elem_of_app; left; assumption.
          + intros p [Hin'|Hin']%elem_of_app; [apply Hmax; assumption|].
            apply list_elem_of_singleton in Hin'. inversion Hin'; subst.
            rewrite Hl in Hv'. inversion Hv'; subst v'. assumption.
        - intros h' p [Hin|Hin]%elem_of_app; [eapply Hr; eassumption|].
          apply list_elem_of_singleton in Hin. inversion Hin; subst.
          rewrite Hl. eexists; reflexivity. }
      destruct (move_answer m f); simpl; exact Hsame.
    + pose proof (step_keeps_deepest m duplicates_folder f hashes seen Hk Hr) as Hstep.
      rewrite completion_cases in Hstep. unfold step in Hstep.
      rewrite Ho, Hl in Hstep. exact Hstep.
Qed.

Lemma steps_keeps_deepest_considered (files : list (candidate m)) hashes seen :
  keeps_deepest m seen hashes -> all_recorded m seen hashes ->
  keeps_deepest m (seen ++ considered m duplicates_folder files hashes)
                  (fst (steps m duplicates_folder files hashes))
  /\ all_recorded m (seen ++ considered m duplicates_folder files hashes)
                    (fst (steps m duplicates_folder files hashes)).
Proof.
  revert hashes seen; induction files as [|f rest IH]; intros hashes seen Hk Hr; simpl.
  - rewrite app_nil_r; split; assumption.
  - rewrite iteration_step; simpl.
    destruct (step_keeps_deepest_considered f hashes seen Hk Hr) as [Hk1 Hr1].
    destruct (step m duplicates_folder f hashes) as [h1 e1]; simpl in *.
    destruct (IH h1 _ Hk1 Hr1) as [Hk2 Hr2].
    destruct (steps m duplicates_folder rest h1) as [h2 e2]; simpl in *.
    rewrite app_assoc. split; assumption.
Qed.

(** An iteration whose [try] block raises leaves the dictionary as it was. *)
Lemma raised_keeps_hashes f (st : state (entry m)) e :
  raised_in m duplicates_folder f st = Some e ->
  encountered_hashes (snd (iteration m duplicates_folder f st))
    = encountered_hashes st.
Proof.
  intros Hraised. rewrite iteration_step. simpl.
  rewrite raised_in_cases in Hraised. unfold step.
  destruct (observed m f) as [[h v]|e']; [|reflexivity].
  destruct (encountered_hashes st !! h) as [old|]; [|discriminate Hraised].
  rewrite Hraised. destruct (Nat.ltb _ _); reflexivity.
Qed.

End Considered.

(** C2, as the code has it.  After the first [k] files of a traversal
    (for every [k]), the dictionary holds one entry per fingerprint, and
    the path stored for a fingerprint is a deepest one among all the
    paths observed so far with that fingerprint, leaving out only the
    candidates that were strictly deeper than the stored path when
    moving that stored path failed.  Every fingerprint observed has an
    entry, an iteration whose move fails leaves the dictionary as it was,
    and the run on the whole traversal goes through that state. *)
Theorem survivor_is_deepest_considered (m : pipeline) (input_folder : string)
    (files : list (candidate m)) (k : nat) (h : string) (v : entry m) :
  let duplicates_folder := join input_folder DUPLICATE_FOLDER_NAME in
  let st := run m input_folder (take k files) in
  let seen := considered m duplicates_folder (take k files) ∅ in
  encountered_hashes st !! h = Some v ->
  run m input_folder files = iterate m duplicates_folder (drop k files) st
  /\ NoDup (map fst (map_to_list (encountered_hashes st)))
  /\ (h, stored_path m v) ∈ seen
  /\ (forall p, (h, p) ∈ seen -> depth p <= depth (stored_path m v))
  /\ all_recorded m seen (encountered_hashes st)
  /\ (forall f e,
        raised_in m duplicates_folder f st = Some e ->
        encountered_hashes (snd (iteration m duplicates_folder f st))
          = encountered_hashes st)
  /\ (forall f h' v',
        observed m f = Returns (h', v') ->
        consideration m duplicates_folder f (encountered_hashes st) = []
        <-> (exists old e,
               encountered_hashes st !! h' = Some old
               /\ depth (stored_path m old) < depth (file_path m f)
               /\ move_answer m f = Some e)).
Proof.
  intros duplicates_folder st seen Hl.
  split; [apply run_prefix|].
  split; [apply NoDup_fst_map_to_list|].
  destruct (steps_keeps_deepest_considered m duplicates_folder (take k files) ∅ [])
    as [Hk Hr].
  { intros h' v' Hv'. rewrite lookup_empty in Hv'. discriminate Hv'. }
  { intros h' p Hin. apply elem_of_nil in Hin. contradiction. }
  simpl in Hk, Hr.
  assert (Hst : encountered_hashes st
                = fst (steps m duplicates_folder (take k files) ∅))
    by (subst st; rewrite run_steps; reflexivity).
  rewrite Hst in *.
  destruct (Hk _ _ Hl) as [Hin Hmax].
  split; [assumption|]. split; [assumption|]. split; [assumption|].
  split.
  - intros f e Hraised. rewrite <- Hst. apply (raised_keeps_hashes m _ f st e).
    exact Hraised.
  - intros f h' v' Ho. rewrite consideration_cases, Ho.
    destruct (fst (steps m duplicates_folder (take k files) ∅) !! h') as [old|].
    + destruct (Nat.ltb _ _) eqn:Hd.
      * apply Nat.ltb_lt in Hd. destruct (move_answer m f) as [e|]; split.
        -- intros _. exists old, e. repeat split; assumption.
        -- reflexivity.
        -- discriminate.
        -- intros (old' & e & _ & _ & He). discriminate He.
      * apply Nat.ltb_ge in Hd. split; [discriminate|].
        intros (old' & e & Hold & Hlt & _). inversion Hold; subst old'. lia.
    + split; [discriminate|]. intros (old' & e & Hold & _). discriminate Hold.
Qed.

Lemma survivor_is_deepest_considered_witness :
  encountered_hashes
    (run Videos "photos" (take 2 [deep_clip; shallow_clip_stuck]))
    !! clip_digest = Some ("photos/2020/clip.mp4", 1024%Z)
  /\ considered Videos "photos/_duplicates" (take 2 [deep_clip; shallow_clip_stuck]) ∅
     = [(clip_digest, "photos/2020/clip.mp4"); (clip_digest, "photos/clip.mp4")]
  /\ completed Videos "photos/_duplicates" (take 2 [deep_clip; shallow_clip_stuck]) ∅
     = [(clip_digest, "photos/2020/clip.mp4")]
  /\ forall p,
       (clip_digest, p)
         ∈ considered Videos (join "photos" DUPLICATE_FOLDER_NAME)
             (take 2 [deep_clip; shallow_clip_stuck]) ∅ ->
       depth p <= depth "photos/2020/clip.mp4".
Proof.
  assert (Hl : encountered_hashes
                 (run Videos "photos" (take 2 [deep_clip; shallow_clip_stuck]))
                 !! clip_digest = Some ("photos/2020/clip.mp4", 1024%Z))
    by (vm_compute; reflexivity).
  split; [exact Hl|]. split; [vm_compute; reflexivity|].
  split; [vm_compute; reflexivity|].
  exact (proj1 (proj2 (proj2 (proj2
    (survivor_is_deepest_considered Videos "photos"
       [deep_clip; shallow_clip_stuck] 2
       clip_digest ("photos/2020/clip.mp4", 1024%Z) Hl))))).
Defined.

(** C2, refuted as stated.  The shallow copy is recorded; the deeper copy
    is then observed with the same fingerprint, but moving the shallow
    one raises.  The entry still names the shallow copy although a deeper
    path was observed with that fingerprint. *)
Lemma deepest_of_all_observed_fails :
  encountered_hashes (run Videos "photos" [shallow_clip; deep_clip_stuck])
    !! clip_digest = Some ("photos/clip.mp4", 1024%Z)
  /\ (clip_digest, "photos/2020/clip.mp4")
       ∈ sightings Videos [shallow_clip; deep_clip_stuck]
  /\ depth "photos/clip.mp4" < depth "photos/2020/clip.mp4"
  /\ ~ keeps_deepest Videos (sightings Videos [shallow_clip; deep_clip_stuck])
         (encountered_hashes (run Videos "photos" [shallow_clip; deep_clip_stuck])).
Proof.
  assert (Hl : encountered_hashes
                 (run Videos "photos" [shallow_clip; deep_clip_stuck])
                 !! clip_digest = Some ("photos/clip.mp4", 1024%Z))
    by (vm_compute; reflexivity).
  assert (Hin : (clip_digest, "photos/2020/clip.mp4")
                  ∈ sightings Videos [shallow_clip; deep_clip_stuck])
    by (apply elem_of_cons; right; apply elem_of_cons; left; reflexivity).
  assert (Hd : depth "photos/clip.mp4" < depth "photos/2020/clip.mp4")
    by (vm_compute; lia).
  repeat split; try assumption.
  intros Hclaim. destruct (Hclaim _ _ Hl) as [_ Hmax].
  specialize (Hmax _ Hin). simpl in Hmax. lia.
Qed.

(** ** Errors stay inside their iteration *)

Lemma process_returns m input_folder files :
  fst (process m input_folder files initial) = Returns tt.
Proof.
  destruct m.
  - exact (f_equal fst
             (for_each_steps Images (join input_folder DUPLICATE_FOLDER_NAME) files
                (State ∅ (preamble Images input_folder)))).
  - exact (f_equal fst
             (for_each_steps Videos (join input_folder DUPLICATE_FOLDER_NAME) files
                (State ∅ (preamble Videos input_folder)))).
Qed.

Lemma step_raised m duplicates_folder (f : candidate m) (st : state (entry m)) e :
  raised_in m duplicates_folder f st = Some e ->
  exists events,
    step m duplicates_folder f (encountered_hashes st) =
      (encountered_hashes st,
       events ++ [Print (error_line m (file_path m f) e)])
    /\ Forall (fun ev => is_moved ev = false) events.
Proof.
  rewrite raised_in_cases. unfold step.
  destruct (observed m f) as [[h v]|e'] eqn:Ho.
  - destruct (encountered_hashes st !! h) as [old|]; [|discriminate].
    intros Hm; rewrite Hm.
    destruct (Nat.ltb _ _); eexists [_; _]; (split; [reflexivity|]);
      repeat constructor.
  - intros He; inversion He; subst e'. exists []. split; [reflexivity|constructor].
Qed.

(** C7. Let the [try] block of a file [f] raise, while its fingerprint is
    computed or while a file is moved, in the state the traversal has
    reached.  The exception is caught: the run returns, the line printed
    last for [f] is "Error processing image" (or "video") followed by the
    path of [f], a colon and the text of the exception, and nothing was
    moved during its iteration.  The files after [f] are processed as if
    [f] had not been in the traversal: the final dictionary is that of
    the run without [f], and so are the events of all other files. *)
Theorem error_is_contained (m : pipeline) (input_folder : string)
    (before : list (candidate m)) (f : candidate m) (after : list (candidate m))
    (e : exn) :
  raised_in m (join input_folder DUPLICATE_FOLDER_NAME) f (run m input_folder before)
    = Some e ->
  exists events rest,
    fst (process m input_folder (before ++ f :: after) initial) = Returns tt
    /\ encountered_hashes (run m input_folder (before ++ f :: after))
       = encountered_hashes (run m input_folder (before ++ after))
    /\ trace (run m input_folder (before ++ f :: after))
       = trace (run m input_folder before)
           ++ (events
                 ++ [Print ((match m with
                             | Images => "Error processing image "
                             | Videos => "Error processing video "
                             end) +:+ file_path m f +:+ ": " +:+ exn_str e)])
           ++ rest
    /\ trace (run m input_folder (before ++ after))
       = trace (run m input_folder before) ++ rest
    /\ Forall (fun ev => is_moved ev = false) events.
Proof.
  intros Hraised.
  destruct (step_raised _ _ _ _ _ Hraised) as (events & Hstep & Hnone).
  assert (Hline : error_line m (file_path m f) e
                  = (match m with
                     | Images => "Error processing image "
                     | Videos => "Error processing video "
                     end) +:+ file_path m f +:+ ": " +:+ exn_str e)
    by (destruct m; reflexivity).
  rewrite Hline in Hstep.
  rewrite !run_steps in *. simpl in Hstep.
  set (dup := join input_folder DUPLICATE_FOLDER_NAME) in *.
  exists events, (snd (steps m dup after (fst (steps m dup before ∅)))).
  split; [apply process_returns|].
  rewrite !steps_app. simpl. rewrite Hstep. simpl.
  destruct (steps m dup after (fst (steps m dup before ∅))) as [h2 e2]; simpl.
  rewrite <- !app_assoc.
  repeat split; try reflexivity. exact Hnone.
Qed.

Lemma error_is_contained_witness :
  raised_in Videos (join "photos" DUPLICATE_FOLDER_NAME) deep_clip_stuck
            (run Videos "photos" [shallow_clip])
    = Some permission_denied
  /\ trace (run Videos "photos" ([shallow_clip] ++ deep_clip_stuck :: [deep_clip]))
     = trace (run Videos "photos" [shallow_clip])
         ++ [Print "Moving duplicate (parent folder): photos/clip.mp4";
             MoveRaised "photos/clip.mp4" "photos/_duplicates/clip.mp4" permission_denied;
             Print "Error processing video photos/2020/clip.mp4: [Errno 13] Permission denied: 'photos/clip.mp4'"]
         ++ [Print "Moving duplicate (parent folder): photos/clip.mp4";
             Moved "photos/clip.mp4" "photos/_duplicates/clip.mp4"]
  /\ trace (run Images "photos" [broken_image])
     = preamble Images "photos"
         ++ [Print "Error processing image photos/broken.jpg: cannot identify image file 'photos/broken.jpg'"]
  /\ exists events rest,
       fst (process Videos "photos" ([shallow_clip] ++ deep_clip_stuck :: [deep_clip])
              initial)
         = Returns tt
       /\ encountered_hashes
            (run Videos "photos" ([shallow_clip] ++ deep_clip_stuck :: [deep_clip]))
          = encountered_hashes (run Videos "photos" ([shallow_clip] ++ [deep_clip]))
       /\ trace (run Videos "photos" ([shallow_clip] ++ deep_clip_stuck :: [deep_clip]))
          = trace (run Videos "photos" [shallow_clip])
              ++ (events
                    ++ [Print ("Error processing video "
                               +:+ file_path Videos deep_clip_stuck
                               +:+ ": " +:+ exn_str permission_denied)])
              ++ rest
       /\ trace (run Videos "photos" ([shallow_clip] ++ [deep_clip]))
          = trace (run Videos "photos" [shallow_clip]) ++ rest
       /\ Forall (fun ev => is_moved ev = false) events.
Proof.
  assert (H : raised_in Videos (join "photos" DUPLICATE_FOLDER_NAME) deep_clip_stuck
                        (run Videos "photos" [shallow_clip])
              = Some permission_denied)
    by (vm_compute; reflexivity).
  split; [exact H|]. split; [vm_compute; reflexivity|].
  split; [vm_compute; reflexivity|].
  exact (error_is_contained Videos "photos" [shallow_clip] deep_clip_stuck
           [deep_clip] permission_denied H).
Defined.

(** ** Files with a fingerprint of their own *)

Section Unique.
Context (m : pipeline) (duplicates_folder : string) (h : string) (p : string).
Implicit Types (g : candidate m) (hashes : gmap string (entry m)).

Lemma step_elsewhere g hashes :
  fingerprint m g <> Returns h ->
  file_path m g <> p ->
  stored_elsewhere m h p hashes ->
  stored_elsewhere m h p (fst (step m duplicates_folder g hashes))
  /\ fst (step m duplicates_folder g hashes) !! h = hashes !! h
  /\ Forall (fun ev => relocates p ev = false) (snd (step m duplicates_folder g hashes)).
Proof.
  intros Hfp Hpath Hapart. unfold step.
  destruct (observed m g) as [[h' v]|e] eqn:Ho;
    [|simpl; repeat split; [assumption|repeat constructor]].
  assert (Hne : h' <> h).
  { intros ->. apply Hfp. eapply observed_fingerprint; eassumption. }
  pose proof (observed_path m g h' v Ho) as Hv.
  assert (Hins : stored_elsewhere m h p (<[h' := v]> hashes)
                 /\ <[h' := v]> hashes !! h = hashes !! h).
  { split; [|apply lookup_insert_ne; assumption].
    intros h'' old Hne'' Hl. destruct (decide (h' = h'')) as [<-|Hd].
    - rewrite lookup_insert_eq in Hl. inversion Hl; subst old. congruence.
    - rewrite lookup_insert_ne in Hl by assumption. eapply Hapart; eassumption. }
  assert (Hnp : String.eqb (file_path m g) p = false)
    by (apply String.eqb_neq; assumption).
  destruct (hashes !! h') as [old|] eqn:Hl.
  - assert (Hno : String.eqb (stored_path m old) p = false)
      by (apply String.eqb_neq; eapply Hapart; eassumption).
    destruct (Nat.ltb _ _); destruct (move_answer m g); simpl;
      repeat split; try tauto; try assumption;
      repeat constructor; simpl; assumption.
  - simpl. repeat split; try tauto. constructor.
Qed.

Lemma steps_elsewhere (files : list (candidate m)) hashes :
  Forall (fun g => fingerprint m g <> Returns h /\ file_path m g <> p) files ->
  stored_elsewhere m h p hashes ->
  stored_elsewhere m h p (fst (steps m duplicates_folder files hashes))
  /\ fst (steps m duplicates_folder files hashes) !! h = hashes !! h
  /\ Forall (fun ev => relocates p ev = false)
            (snd (steps m duplicates_folder files hashes)).
Proof.
  intros Hfiles; revert hashes.
  induction Hfiles as [|g rest [Hfp Hpath] _ IH]; intros hashes Hapart; simpl.
  - repeat split; [assumption|constructor].
  - destruct (step_elsewhere g hashes Hfp Hpath Hapart) as (Ha1 & Hl1 & He1).
    destruct (step m duplicates_folder g hashes) as [h1 e1]; simpl in *.
    destruct (IH h1 Ha1) as (Ha2 & Hl2 & He2).
    destruct (steps m duplicates_folder rest h1) as [h2 e2]; simpl in *.
    repeat split; [assumption|congruence|].
    apply Forall_app; split; assumption.
Qed.

End Unique.

(** C8. Let [f] be a file whose fingerprint [h] was computed and is the
    fingerprint of no other file of the traversal, the paths of a
    traversal being distinct.  Then [shutil.move] is never called on the
    path of [f], neither successfully nor not, and at the end of the run
    the entry of [h] is the one recorded for [f]. *)
Theorem unique_file_never_moved (m : pipeline) (input_folder : string)
    (before : list (candidate m)) (f : candidate m) (after : list (candidate m))
    (h : string) (v : entry m) :
  observed m f = Returns (h, v) ->
  Forall (fun g => fingerprint m g <> Returns h /\ file_path m g <> file_path m f)
         (before ++ after) ->
  let st := run m input_folder (before ++ f :: after) in
  encountered_hashes st !! h = Some v
  /\ stored_path m v = file_path m f
  /\ Forall (fun ev => relocates (file_path m f) ev = false) (trace st).
Proof.
  intros Ho Hothers st. subst st.
  apply Forall_app in Hothers. destruct Hothers as [Hbefore Hafter].
  set (dup := join input_folder DUPLICATE_FOLDER_NAME).
  rewrite run_steps. fold dup. rewrite steps_app. simpl.
  destruct (steps_elsewhere m dup h (file_path m f) before ∅ Hbefore)
    as (Ha1 & Hl1 & He1).
  { intros h' old _ Hl. rewrite lookup_empty in Hl. discriminate Hl. }
  rewrite lookup_empty in Hl1.
  set (t1 := fst (steps m dup before ∅)) in *.
  assert (Hstep : step m dup f t1 = (<[h := v]> t1, [])).
  { unfold step. rewrite Ho, Hl1. reflexivity. }
  rewrite Hstep.
  destruct (steps_elsewhere m dup h (file_path m f) after (<[h := v]> t1) Hafter)
    as (Ha2 & Hl2 & He2).
  { intros h' old Hne Hl. rewrite lookup_insert_ne in Hl by congruence.
    eapply Ha1; eassumption. }
  rewrite lookup_insert_eq in Hl2.
  destruct (steps m dup after (<[h := v]> t1)) as [t2 e2]; simpl in *.
  split; [assumption|]. split; [eapply observed_path; eassumption|].
  repeat constructor. apply Forall_app; split; assumption.
Qed.

Lemma unique_file_never_moved_witness :
  observed Videos holiday = Returns (holiday_digest, ("photos/2021/holiday.mp4", 2048%Z))
  /\ Forall (fun g => fingerprint Videos g <> Returns holiday_digest
                      /\ file_path Videos g <> file_path Videos holiday)
            ([shallow_clip] ++ [deep_clip])
  /\ encountered_hashes (run Videos "photos" ([shallow_clip] ++ holiday :: [deep_clip]))
       !! holiday_digest
     = Some ("photos/2021/holiday.mp4", 2048%Z)
  /\ Forall (fun ev => relocates "photos/2021/holiday.mp4" ev = false)
            (trace (run Videos "photos" ([shallow_clip] ++ holiday :: [deep_clip]))).
Proof.
  assert (Hothers : Forall (fun g => fingerprint Videos g <> Returns holiday_digest
                                     /\ file_path Videos g <> file_path Videos holiday)
                           ([shallow_clip] ++ [deep_clip]))
    by (repeat constructor; intros H; discriminate H).
  split; [reflexivity|]. split; [exact Hothers|].
  destruct (unique_file_never_moved Videos "photos" [shallow_clip] holiday [deep_clip]
              holiday_digest ("photos/2021/holiday.mp4", 2048%Z) eq_refl Hothers)
    as (Hl & _ & Hev).
  split; assumption.
Defined.

(** ** The image fingerprint *)

Lemma length_string_of_list (l : list ascii) :
  String.length (string_of_list_ascii l) = length l.
Proof. induction l as [|a l IH]; simpl; congruence. Qed.

Lemma get_string_of_list (l : list ascii) (i : nat) :
  String.get i (string_of_list_ascii l) = l !! i.
Proof.
  revert i; induction l as [|a l IH]; intros [|i]; simpl; try reflexivity.
  apply IH.
Qed.

Section Grid.
Context (n : nat).
Implicit Types (img : list (list Z)) (row : list Z).

Lemma length_flatten img :
  Forall (fun row => length row = n) img ->
  length (flatten img) = length img * n.
Proof.
  unfold flatten. induction 1 as [|row img Hrow _ IH]; simpl; [reflexivity|].
  rewrite length_app, IH, Hrow. reflexivity.
Qed.

(** Row-major order: pixel [(r, c)] is at position [r * n + c]. *)
Lemma lookup_flatten img r c :
  Forall (fun row => length row = n) img ->
  c < n ->
  flatten img !! (r * n + c) = pixel img r c.
Proof.
  unfold flatten, pixel. intros Hrows Hc. revert r.
  induction Hrows as [|row img Hrow _ IH]; intros r; simpl.
  - rewrite !lookup_nil. reflexivity.
  - destruct r as [|r]; simpl.
    + apply lookup_app_l. lia.
    + rewrite lookup_app_r by lia.
      replace (n + r * n + c - length row) with (r * n + c) by lia.
      apply IH.
Qed.

Lemma total_app (l k : list Z) : total (l ++ k) = (total l + total k)%Z.
Proof.
  unfold total. induction l as [|p l IH]; simpl; [reflexivity|]. rewrite IH. lia.
Qed.

Lemma total_row (row : list Z) : total row = row_sum row.
Proof.
  unfold total. induction row as [|p row IH]; simpl; [reflexivity|].
  rewrite IH. reflexivity.
Qed.

Lemma total_flatten img : total (flatten img) = grid_sum img.
Proof.
  unfold flatten. induction img as [|row img IH]; simpl; [reflexivity|].
  rewrite total_app, IH, total_row. reflexivity.
Qed.

End Grid.

(** The comparison with the mean, on integers. *)
Lemma threshold_mean (pixels : list Z) (p : Z) :
  pixels <> [] ->
  threshold (mean pixels) p =
    if (total pixels <? p * Z.of_nat (length pixels))%Z then "1"%char else "0"%char.
Proof.
  intros Hne. unfold threshold, mean.
  assert (Hpos : (0 < Z.of_nat (length pixels))%Z)
    by (destruct pixels; [contradiction|simpl; lia]).
  destruct (Z.of_nat (length pixels)) as [|N|N] eqn:HN; try lia.
  destruct (Z.ltb_spec (total pixels) (p * Z.pos N)) as [Hlt|Hge].
  - assert (H : (inject_Z p > inject_Z (total pixels) / inject_Z (Z.pos N))%Q)
      by (unfold Qlt, Qdiv, Qmult, Qinv, inject_Z; simpl; lia).
    apply Qgt_alt in H. rewrite H. reflexivity.
  - assert (H : (inject_Z p <= inject_Z (total pixels) / inject_Z (Z.pos N))%Q)
      by (unfold Qle, Qdiv, Qmult, Qinv, inject_Z; simpl; lia).
    destruct (inject_Z p ?= inject_Z (total pixels) / inject_Z (Z.pos N))%Q eqn:E;
      [reflexivity|reflexivity|].
    exfalso. apply H. exact E.
Qed.

Lemma resized_rows img :
  resized img -> Forall (fun row => length row = COMPARE_SIZE) img.
Proof.
  intros [_ Hrows]. eapply Forall_impl; [exact Hrows|]. intros row [H _]; exact H.
Qed.

Lemma resized_length img :
  resized img -> length (flatten img) = COMPARE_SIZE * COMPARE_SIZE.
Proof.
  intros H. rewrite (length_flatten COMPARE_SIZE) by (apply resized_rows; exact H).
  destruct H as [-> _]. reflexivity.
Qed.

Lemma compare_size_squared : Z.of_nat (COMPARE_SIZE * COMPARE_SIZE) = 90000%Z.
Proof. rewrite Nat2Z.inj_mul. reflexivity. Qed.

Lemma image_hash_returns img :
  image_hash (Returns img) =
    Returns (string_of_list_ascii (map (threshold (mean (flatten img))) (flatten img))).
Proof. reflexivity. Qed.

Lemma resized_pixel img r c :
  resized img -> r < COMPARE_SIZE -> c < COMPARE_SIZE ->
  exists p, pixel img r c = Some p /\ (0 <= p <= 255)%Z.
Proof.
  intros [Hlen Hrows] Hr Hc. unfold pixel.
  destruct (lookup_lt_is_Some_2 img r) as [row Hrow]; [lia|].
  rewrite Hrow.
  pose proof (proj1 (Forall_lookup _ _) Hrows r row Hrow) as [Hlr Hpix].
  destruct (lookup_lt_is_Some_2 row c) as [p Hp]; [lia|].
  exists p. split; [assumption|].
  exact (proj1 (Forall_lookup _ _) Hpix c p Hp).
Qed.

Lemma solid_resized c : (0 <= c <= 255)%Z -> resized (solid c).
Proof.
  intros Hc. unfold resized, solid. split; [apply length_replicate|].
  apply Forall_replicate. split; [apply length_replicate|].
  apply Forall_replicate. exact Hc.
Qed.

Lemma solid_uniform c : uniform c (solid c).
Proof.
  unfold uniform, solid. apply Forall_replicate, Forall_replicate. reflexivity.
Qed.

(** C6. For the array of a decoded image resized to COMPARE_SIZE x
    COMPARE_SIZE, [image_hash] returns a string of COMPARE_SIZE² = 90000
    characters; the character for the pixel of row [r] and column [c] is
    at position [r * COMPARE_SIZE + c] (row-major order) and is "1" when
    the pixel is strictly above the mean of the grid and "0" otherwise. *)
Theorem image_hash_bits (img : list (list Z)) :
  resized img ->
  exists s,
    image_hash (Returns img) = Returns s
    /\ String.length s = COMPARE_SIZE * COMPARE_SIZE
    /\ Z.of_nat (String.length s) = 90000%Z
    /\ forall r c,
         r < COMPARE_SIZE -> c < COMPARE_SIZE ->
         exists p,
           pixel img r c = Some p
           /\ String.get (r * COMPARE_SIZE + c) s
              = Some (if above_mean img p then "1"%char else "0"%char).
Proof.
  intros Hres. eexists. split; [apply image_hash_returns|].
  pose proof (resized_length img Hres) as Hlen.
  rewrite length_string_of_list, length_map, Hlen.
  split; [reflexivity|]. split; [apply compare_size_squared|].
  intros r c Hr Hc.
  destruct (resized_pixel img r c Hres Hr Hc) as (p & Hp & _).
  exists p. split; [exact Hp|].
  rewrite get_string_of_list, list_lookup_fmap.
  rewrite (lookup_flatten COMPARE_SIZE) by (try apply resized_rows; assumption).
  rewrite Hp. simpl. f_equal.
  rewrite threshold_mean.
  - rewrite Hlen, total_flatten. reflexivity.
  - intros Hnil. rewrite Hnil in Hlen. discriminate Hlen.
Qed.

Lemma two_tone_resized : resized two_tone.
Proof.
  unfold resized, two_tone. split.
  - rewrite length_app, !length_replicate. reflexivity.
  - apply Forall_app. split; apply Forall_replicate;
      (split; [apply length_replicate|apply Forall_replicate; lia]).
Qed.

Lemma image_hash_bits_witness :
  resized two_tone
  /\ exists s,
       image_hash (Returns two_tone) = Returns s
       /\ Z.of_nat (String.length s) = 90000%Z
       /\ String.get (0 * COMPARE_SIZE + 0) s = Some "0"%char
       /\ String.get (149 * COMPARE_SIZE + 299) s = Some "0"%char
       /\ String.get (150 * COMPARE_SIZE + 0) s = Some "1"%char
       /\ String.get (299 * COMPARE_SIZE + 7) s = Some "1"%char.
Proof.
  split; [exact two_tone_resized|].
  destruct (image_hash_bits two_tone two_tone_resized) as (s & Hs & _ & Hlen & Hbits).
  exists s. split; [exact Hs|]. split; [exact Hlen|].
  assert (Hdark : above_mean two_tone 10 = false)
    by (unfold above_mean; rewrite compare_size_squared; vm_compute; reflexivity).
  assert (Hbright : above_mean two_tone 200 = true)
    by (unfold above_mean; rewrite compare_size_squared; vm_compute; reflexivity).
  assert (Hbit : forall r c p,
            r < COMPARE_SIZE -> c < COMPARE_SIZE -> pixel two_tone r c = Some p ->
            String.get (r * COMPARE_SIZE + c) s
            = Some (if above_mean two_tone p then "1"%char else "0"%char)).
  { intros r c p Hr Hc Hp. destruct (Hbits r c Hr Hc) as (q & Hq & Hget).
    rewrite Hp in Hq. inversion Hq; subst q. exact Hget. }
  split; [|split; [|split]].
  - rewrite (Hbit 0 0 10%Z); [rewrite Hdark; reflexivity| | |];
      [unfold COMPARE_SIZE; lia|unfold COMPARE_SIZE; lia|vm_compute; reflexivity].
  - rewrite (Hbit 149 299 10%Z); [rewrite Hdark; reflexivity| | |];
      [unfold COMPARE_SIZE; lia|unfold COMPARE_SIZE; lia|vm_compute; reflexivity].
  - rewrite (Hbit 150 0 200%Z); [rewrite Hbright; reflexivity| | |];
      [unfold COMPARE_SIZE; lia|unfold COMPARE_SIZE; lia|vm_compute; reflexivity].
  - rewrite (Hbit 299 7 200%Z); [rewrite Hbright; reflexivity| | |];
      [unfold COMPARE_SIZE; lia|unfold COMPARE_SIZE; lia|vm_compute; reflexivity].
Defined.

Lemma total_uniform (pixels : list Z) (c : Z) :
  Forall (fun p => p = c) pixels -> total pixels = (c * Z.of_nat (length pixels))%Z.
Proof.
  unfold total. induction 1 as [|p pixels -> _ IH]; simpl length; simpl foldr; [lia|].
  rewrite IH. lia.
Qed.

Lemma flatten_uniform img c :
  uniform c img -> Forall (fun p => p = c) (flatten img).
Proof.
  unfold uniform, flatten. induction 1 as [|row img Hrow _ IH]; simpl.
  - constructor.
  - apply Forall_app. split; assumption.
Qed.

Lemma map_uniform {A} (g : Z -> A) (pixels : list Z) (c : Z) :
  Forall (fun p => p = c) pixels -> map g pixels = replicate (length pixels) (g c).
Proof. induction 1 as [|p pixels -> _ IH]; simpl; [reflexivity|]. rewrite IH. reflexivity. Qed.

(** A uniform grid has no pixel strictly above its mean. *)
Lemma image_hash_uniform img c :
  resized img -> uniform c img ->
  image_hash (Returns img) = Returns (zeros (COMPARE_SIZE * COMPARE_SIZE)).
Proof.
  intros Hres Huni. rewrite image_hash_returns. unfold zeros.
  pose proof (resized_length img Hres) as Hlen.
  pose proof (flatten_uniform img c Huni) as Hflat.
  rewrite (map_uniform _ _ c Hflat), Hlen.
  rewrite threshold_mean.
  - rewrite (total_uniform _ c Hflat), Z.ltb_irrefl. reflexivity.
  - intros Hnil. rewrite Hnil in Hlen. discriminate Hlen.
Qed.

(** C10. Every resized grid whose pixels are all equal hashes to the
    string of COMPARE_SIZE² zeros, whatever the common intensity: the
    comparison with the mean is strict.  Two such images therefore have
    the same fingerprint, and [process_images] treats them as duplicates:
    met one after the other, the shallower of the two (the second one at
    equal depth) is moved to the quarantine folder and the other is the
    entry of the fingerprint. *)
Theorem uniform_images_collide (img1 img2 : list (list Z)) (c1 c2 : Z)
    (input_folder path1 path2 : string) :
  resized img1 -> resized img2 -> uniform c1 img1 -> uniform c2 img2 ->
  let files := [ImageFile path1 (Returns img1) None;
                ImageFile path2 (Returns img2) None] in
  let deeper := Nat.ltb (depth path1) (depth path2) in
  let moved := if deeper then path1 else path2 in
  let kept := if deeper then path2 else path1 in
  image_hash (Returns img1) = Returns (zeros (COMPARE_SIZE * COMPARE_SIZE))
  /\ image_hash (Returns img2) = image_hash (Returns img1)
  /\ encountered_hashes (run Images input_folder files)
     = {[ zeros (COMPARE_SIZE * COMPARE_SIZE) := kept ]}
  /\ exists line,
       trace (run Images input_folder files)
       = preamble Images input_folder
           ++ [Print line;
               Moved moved
                     (quarantine (join input_folder DUPLICATE_FOLDER_NAME) moved)].
Proof.
  intros Hr1 Hr2 Hu1 Hu2 files deeper moved kept.
  pose proof (image_hash_uniform img1 c1 Hr1 Hu1) as H1.
  pose proof (image_hash_uniform img2 c2 Hr2 Hu2) as H2.
  split; [exact H1|]. split; [congruence|].
  subst files. rewrite run_steps. cbn [steps].
  set (z := zeros (COMPARE_SIZE * COMPARE_SIZE)) in *.
  set (dup := join input_folder DUPLICATE_FOLDER_NAME).
  assert (Hs1 : step Images dup (ImageFile path1 (Returns img1) None) ∅
                = (<[z := path1]> ∅, [])).
  { unfold step, observed. cbn [img_resized img_path]. rewrite H1.
    rewrite lookup_empty. reflexivity. }
  rewrite Hs1.
  assert (Hs2 : step Images dup (ImageFile path2 (Returns img2) None) (<[z := path1]> ∅)
                = (if deeper then <[z := path2]> (<[z := path1]> ∅) else <[z := path1]> ∅,
                   [Print (if deeper
                           then "Moving duplicate (parent folder): " +:+ path1
                           else "Moving duplicate (subfolder): " +:+ path2);
                    Moved moved (quarantine dup moved)])).
  { unfold step, observed. cbn [img_resized img_path]. rewrite H2.
    rewrite lookup_insert_eq.
    cbn [stored_path file_path move_answer img_path img_move].
    subst moved deeper. destruct (Nat.ltb (depth path1) (depth path2)); reflexivity. }
  rewrite Hs2. cbn [fst snd]. split.
  - subst kept. destruct deeper.
    + rewrite insert_insert_eq. reflexivity.
    + reflexivity.
  - eexists. rewrite app_nil_l, app_nil_r. reflexivity.
Qed.

Lemma uniform_images_collide_witness :
  resized (solid 0) /\ resized (solid 255)
  /\ uniform 0 (solid 0) /\ uniform 255 (solid 255)
  /\ image_hash (Returns (solid 255)) = image_hash (Returns (solid 0))
  /\ encountered_hashes
       (run Images "photos"
          [ImageFile "photos/black.png" (Returns (solid 0)) None;
           ImageFile "photos/2020/white.png" (Returns (solid 255)) None])
     = {[ zeros (COMPARE_SIZE * COMPARE_SIZE) := "photos/2020/white.png" ]}.
Proof.
  assert (Hb : resized (solid 0)) by (apply solid_resized; lia).
  assert (Hw : resized (solid 255)) by (apply solid_resized; lia).
  destruct (uniform_images_collide (solid 0) (solid 255) 0 255 "photos"
              "photos/black.png" "photos/2020/white.png"
              Hb Hw (solid_uniform 0) (solid_uniform 255))
    as (_ & Hsame & Htable & _).
  split; [exact Hb|]. split; [exact Hw|].
  split; [apply solid_uniform|]. split; [apply solid_uniform|].
  split; [exact Hsame|]. exact Htable.
Defined.

(** ** The similarity score *)

Lemma filter_map_length {A B} (g : A -> B) (f : B -> bool) (l : list A) :
  length (List.filter f (map g l)) = length (List.filter (fun x => f (g x)) l).
Proof.
  induction l as [|x l IH]; simpl; [reflexivity|].
  destruct (f (g x)); simpl; congruence.
Qed.

Lemma differing_cons a b (u v : string) :
  differing (String a u) (String b v) =
    (if Ascii.eqb a b then 0 else 1) + differing u v.
Proof.
  unfold differing. cbn [String.length seq].
  rewrite <- seq_shift. cbn [List.filter].
  assert (Htail : length (List.filter (differs_at (String a u) (String b v))
                            (List.map S (seq 0 (String.length u))))
                  = length (List.filter (differs_at u v) (seq 0 (String.length u))))
    by (rewrite filter_map_length; reflexivity).
  unfold differs_at at 1. cbn [String.get].
  destruct (Ascii.eqb a b); cbn [negb length]; rewrite Htail; reflexivity.
Qed.

(** The mask of [u != v] has as many [True] as there are differing positions. *)
Lemma count_true_differing (a b : string) :
  String.length a = String.length b ->
  count_true (not_equal (list_ascii_of_string a) (list_ascii_of_string b))
    = differing a b.
Proof.
  revert b; induction a as [|x a IH]; intros [|y b] Hlen; try discriminate Hlen.
  - reflexivity.
  - rewrite differing_cons. simpl in Hlen. injection Hlen as Hlen.
    rewrite <- (IH b Hlen). unfold count_true, not_equal. simpl.
    destruct (Ascii.eqb x y); reflexivity.
Qed.

Lemma length_list_of_string (a : string) :
  length (list_ascii_of_string a) = String.length a.
Proof. induction a as [|x a IH]; simpl; congruence. Qed.

Lemma length_not_equal (u v : list ascii) :
  length u = length v -> length (not_equal u v) = length u.
Proof.
  unfold not_equal. revert v; induction u as [|x u IH]; intros [|y v] H;
    try discriminate H; simpl; [reflexivity|].
  injection H as H. rewrite IH by assumption. reflexivity.
Qed.

Lemma differing_le (a b : string) : differing a b <= String.length a.
Proof.
  unfold differing.
  etransitivity; [apply List.filter_length_le|]. rewrite length_seq. reflexivity.
Qed.

Lemma differing_zero (a b : string) :
  String.length a = String.length b -> differing a b = 0 -> a = b.
Proof.
  revert b; induction a as [|x a IH]; intros [|y b] Hlen Hd; try discriminate Hlen.
  - reflexivity.
  - rewrite differing_cons in Hd. simpl in Hlen. injection Hlen as Hlen.
    destruct (Ascii.eqb_spec x y) as [->|Hne]; [|discriminate Hd].
    f_equal. apply IH; assumption.
Qed.

Lemma differing_same (a : string) : differing a a = 0.
Proof.
  induction a as [|x a IH]; [reflexivity|].
  rewrite differing_cons, Ascii.eqb_refl. exact IH.
Qed.

(** The score of two strings of the same positive length, in closed form. *)
Lemma score_closed_form (a b : string) :
  String.length a = String.length b ->
  0 < String.length a ->
  get_similarity_score a b =
    Returns (round2 (percentage
      (Finite (Z.of_nat (differing a b) # Pos.of_nat (String.length a))))).
Proof.
  intros Hlen Hpos. unfold get_similarity_score, hamming.
  rewrite !length_list_of_string, <- Hlen, Nat.eqb_refl.
  pose proof (count_true_differing a b Hlen) as Hcount.
  assert (Hmask : length (not_equal (list_ascii_of_string a) (list_ascii_of_string b))
                  = String.length a).
  { rewrite length_not_equal, length_list_of_string; [reflexivity|].
    rewrite !length_list_of_string. exact Hlen. }
  unfold np_mean.
  destruct (not_equal (list_ascii_of_string a) (list_ascii_of_string b))
    as [|x mask] eqn:E; [simpl in Hmask; lia|].
  rewrite Hcount, Hmask. reflexivity.
Qed.

(** *** Rounding *)

Lemma round_half_even_near (x : Q) :
  (inject_Z (round_half_even x) - (1 # 2) <= x
   /\ x <= inject_Z (round_half_even x) + (1 # 2))%Q.
Proof.
  unfold round_half_even.
  pose proof (Qfloor_le x) as Hlo. pose proof (Qlt_floor x) as Hhi.
  rewrite inject_Z_plus in Hhi. change (inject_Z 1) with 1%Q in Hhi.
  destruct (Qcompare_spec (x - inject_Z (Qfloor x)) (1 # 2)) as [He|Hl|Hg].
  - destruct (Z.even (Qfloor x)); rewrite ?inject_Z_plus;
      change (inject_Z 1) with 1%Q; lra.
  - lra.
  - rewrite inject_Z_plus. change (inject_Z 1) with 1%Q. lra.
Qed.

Lemma round_half_even_within (x : Q) (n : Z) :
  (inject_Z n - (1 # 2) < x)%Q -> (x < inject_Z n + (1 # 2))%Q ->
  round_half_even x = n.
Proof.
  intros Hlo Hhi. destruct (round_half_even_near x) as [Hr1 Hr2].
  assert (H1 : (round_half_even x < n + 1)%Z).
  { rewrite Zlt_Qlt, inject_Z_plus. change (inject_Z 1) with 1%Q. lra. }
  assert (H2 : (n < round_half_even x + 1)%Z).
  { rewrite Zlt_Qlt, inject_Z_plus. change (inject_Z 1) with 1%Q. lra. }
  lia.
Qed.

Lemma hundredths_is_100 (z : Z) :
  Qeq_bool (inject_Z z / 100) 100 = true <-> z = 10000%Z.
Proof.
  rewrite Qeq_bool_iff. unfold Qeq, Qdiv, Qmult, Qinv, inject_Z; simpl. lia.
Qed.

(** The score of [k] differing positions out of [n]: it is 100.0 when
    fewer than one position in 20000 differs, and only when at most one
    position in 20000 does. *)
Lemma score_of_fraction (k n : nat) :
  0 < n -> k <= n ->
  let score := Returns (round2 (percentage (Finite (Z.of_nat k # Pos.of_nat n)))) in
  ((20000 * Z.of_nat k < Z.of_nat n)%Z -> score_is score 100 = true)
  /\ (score_is score 100 = true -> (20000 * Z.of_nat k <= Z.of_nat n)%Z).
Proof.
  intros Hn Hk score. subst score. simpl score_is.
  rewrite hundredths_is_100.
  assert (Hp : Z.pos (Pos.of_nat n) = Z.of_nat n) by lia.
  split.
  - intros Hlt. apply round_half_even_within;
      unfold Qlt, Qminus, Qplus, Qopp, Qmult, inject_Z; simpl;
      rewrite ?Pos.mul_1_r, ?Hp; lia.
  - intros Hr.
    destruct (round_half_even_near
                ((1 - (Z.of_nat k # Pos.of_nat n)) * 100 * 100)) as [Hlo _].
    rewrite Hr in Hlo.
    unfold Qle, Qminus, Qplus, Qopp, Qmult, inject_Z in Hlo; simpl in Hlo.
    rewrite ?Pos.mul_1_r, ?Hp in Hlo. lia.
Qed.

(** C5. For two strings of the same length [n] (not empty) that differ
    in exactly [k] positions, [get_similarity_score] returns
    [(1 - k/n) * 100] rounded to two decimals: a whole number of
    hundredths that is at most half a hundredth away from
    [(1 - k/n) * 100], and the one strictly nearest whenever there is
    one.  (Exactly halfway between two hundredths the statement leaves
    the choice open: there [binary64] decides by the error of the
    quotient.)  In particular the score of a string with itself is
    100.0. *)
Theorem similarity_score_formula (a b : string) :
  String.length a = String.length b ->
  0 < String.length a ->
  let n := Z.of_nat (String.length a) in
  let k := Z.of_nat (differing a b) in
  exists hundredths : Z,
    get_similarity_score a b = Returns (Finite (inject_Z hundredths / 100))
    /\ (2 * Z.abs (hundredths * n - 10000 * (n - k)) <= n)%Z
    /\ (forall z, (2 * Z.abs (z * n - 10000 * (n - k)) < n)%Z -> hundredths = z)
    /\ score_is (get_similarity_score a a) 100 = true.
Proof.
  intros Hlen Hpos n k.
  exists (round_half_even
            ((1 - (Z.of_nat (differing a b) # Pos.of_nat (String.length a)))
             * 100 * 100)).
  split; [apply score_closed_form; assumption|].
  assert (Hp : Z.pos (Pos.of_nat (String.length a)) = n) by (subst n; lia).
  assert (Hnear : (2 * Z.abs (round_half_even
                     ((1 - (Z.of_nat (differing a b) # Pos.of_nat (String.length a)))
                      * 100 * 100) * n - 10000 * (n - k)) <= n)%Z).
  { destruct (round_half_even_near
                ((1 - (Z.of_nat (differing a b) # Pos.of_nat (String.length a)))
                 * 100 * 100)) as [Hlo Hhi].
    set (r := round_half_even _) in *.
    unfold Qle, Qminus, Qplus, Qopp, Qmult, inject_Z in Hlo, Hhi;
      simpl in Hlo, Hhi; rewrite ?Pos.mul_1_r, ?Hp in Hlo, Hhi.
    fold k in Hlo, Hhi. lia. }
  split; [exact Hnear|]. split.
  - intros z Hz. set (r := round_half_even _) in *.
    assert (Hn : (0 < n)%Z) by (subst n; lia).
    nia.
  - rewrite score_closed_form by (reflexivity || assumption).
    rewrite differing_same.
    apply (score_of_fraction 0 (String.length a)); lia.
Qed.

Lemma similarity_score_formula_witness :
  String.length "0110" = String.length "0100"
  /\ differing "0110" "0100" = 1
  /\ get_similarity_score "0110" "0100" = Returns (Finite (inject_Z 7500 / 100))
  /\ differing "000" "100" = 1
  /\ get_similarity_score "000" "100" = Returns (Finite (inject_Z 6667 / 100))
  /\ score_is (get_similarity_score "0110" "0110") 100 = true.
Proof.
  destruct (similarity_score_formula "0110" "0100" eq_refl) as (h1 & Hs1 & _ & Hu1 & Hself);
    [simpl; lia|].
  destruct (similarity_score_formula "000" "100" eq_refl) as (h2 & Hs2 & _ & Hu2 & _);
    [simpl; lia|].
  assert (H1 : h1 = 7500%Z) by (apply Hu1; vm_compute; reflexivity).
  assert (H2 : h2 = 6667%Z) by (apply Hu2; vm_compute; reflexivity).
  subst h1 h2.
  split; [reflexivity|]. split; [reflexivity|]. split; [exact Hs1|].
  split; [reflexivity|]. split; [exact Hs2|exact Hself].
Defined.

(** C9. For two strings of different lengths [get_similarity_score]
    returns no score: the call raises [ValueError]. *)
Theorem mismatched_lengths_raise (a b : string) :
  String.length a <> String.length b ->
  exists e, get_similarity_score a b = Raises e /\ exn_type e = "ValueError".
Proof.
  intros Hne. unfold get_similarity_score, hamming.
  rewrite !length_list_of_string.
  destruct (Nat.eqb_spec (String.length a) (String.length b)) as [Heq|_];
    [contradiction|].
  eexists. split; reflexivity.
Qed.

Lemma mismatched_lengths_raise_witness :
  String.length "0" <> String.length "01"
  /\ exists e, get_similarity_score "0" "01" = Raises e /\ exn_type e = "ValueError".
Proof.
  assert (H : String.length "0" <> String.length "01") by (simpl; lia).
  split; [exact H|]. exact (mismatched_lengths_raise "0" "01" H).
Defined.

(** C3, as the code has it.  For two strings of the same length [n] (not
    empty): equal strings score 100.0; a score of 100.0 says that at most
    one position in 20000 differs, and fewer than one in 20000 differing
    positions give 100.0.  The score reaching 100.0 is the same as
    equality only for strings shorter than 20000 characters. *)
Theorem score_100_up_to_rounding (a b : string) :
  String.length a = String.length b ->
  0 < String.length a ->
  let score := get_similarity_score a b in
  let n := Z.of_nat (String.length a) in
  let k := Z.of_nat (differing a b) in
  (a = b -> score_is score 100 = true)
  /\ (score_is score 100 = true -> (20000 * k <= n)%Z)
  /\ ((20000 * k < n)%Z -> score_is score 100 = true)
  /\ ((n < 20000)%Z -> (score_is score 100 = true <-> a = b)).
Proof.
  intros Hlen Hpos score n k. subst score n k.
  rewrite score_closed_form by assumption.
  destruct (score_of_fraction (differing a b) (String.length a) Hpos
              (differing_le a b)) as [Hsmall Hround].
  assert (Hsame : a = b ->
            score_is (Returns (round2 (percentage
              (Finite (Z.of_nat (differing a b) # Pos.of_nat (String.length a))))))
              100 = true).
  { intros <-. apply Hsmall. rewrite differing_same. lia. }
  repeat split; try assumption.
  intros Hscore. apply differing_zero; [assumption|].
  specialize (Hround Hscore). lia.
Qed.

Lemma score_100_up_to_rounding_witness :
  String.length "0110" = String.length "0100"
  /\ (score_is (get_similarity_score "0110" "0100") 100 = true <-> "0110" = "0100").
Proof.
  destruct (score_100_up_to_rounding "0110" "0100" eq_refl) as (_ & _ & _ & Hiff);
    [simpl; lia|].
  split; [reflexivity|]. apply Hiff. simpl; lia.
Defined.

Lemma score_one_bit (n : nat) :
  (20000 < Z.of_nat n)%Z ->
  String.length (zeros n) = String.length (one_then_zeros n)
  /\ String.length (zeros n) = n
  /\ zeros n <> one_then_zeros n
  /\ differing (zeros n) (one_then_zeros n) = 1
  /\ score_is (get_similarity_score (zeros n) (one_then_zeros n)) 100 = true.
Proof.
  intros Hn. destruct n as [|m]; [simpl in Hn; lia|].
  assert (Hz : String.length (zeros (S m)) = S m)
    by (unfold zeros; rewrite length_string_of_list, length_replicate; reflexivity).
  assert (Ho : one_then_zeros (S m) = String "1"%char (zeros m))
    by (unfold one_then_zeros; rewrite Nat.sub_succ, Nat.sub_0_r; reflexivity).
  assert (Hl : String.length (zeros (S m)) = String.length (one_then_zeros (S m))).
  { rewrite Ho. unfold zeros. cbn [replicate string_of_list_ascii String.length].
    reflexivity. }
  assert (Hd : differing (zeros (S m)) (one_then_zeros (S m)) = 1).
  { rewrite Ho. unfold zeros at 1. cbn [replicate string_of_list_ascii].
    fold (zeros m). rewrite differing_cons, differing_same. reflexivity. }
  repeat split; try assumption.
  - rewrite Ho. unfold zeros at 1. cbn [replicate string_of_list_ascii].
    intros H; discriminate H.
  - rewrite score_closed_form by (assumption || (rewrite Hz; lia)).
    rewrite Hd, Hz.
    apply (score_of_fraction 1 (S m)); lia.
Qed.

(** C3, refuted as stated.  The fingerprint of 90000 zeros and the one
    that differs from it in its first bit have the same length, are
    different, and score 100.0. *)
Lemma score_100_without_equality :
  String.length (zeros (COMPARE_SIZE * COMPARE_SIZE))
    = String.length (one_then_zeros (COMPARE_SIZE * COMPARE_SIZE))
  /\ Z.of_nat (String.length (zeros (COMPARE_SIZE * COMPARE_SIZE))) = 90000%Z
  /\ zeros (COMPARE_SIZE * COMPARE_SIZE) <> one_then_zeros (COMPARE_SIZE * COMPARE_SIZE)
  /\ differing (zeros (COMPARE_SIZE * COMPARE_SIZE))
               (one_then_zeros (COMPARE_SIZE * COMPARE_SIZE)) = 1
  /\ score_is (get_similarity_score (zeros (COMPARE_SIZE * COMPARE_SIZE))
                                    (one_then_zeros (COMPARE_SIZE * COMPARE_SIZE)))
              100 = true.
Proof.
  destruct (score_one_bit (COMPARE_SIZE * COMPARE_SIZE))
    as (Hl & Hn & Hne & Hd & Hs).
  { rewrite compare_size_squared. lia. }
  split; [exact Hl|]. split; [rewrite Hn; apply compare_size_squared|].
  split; [exact Hne|]. split; [exact Hd|exact Hs].
Qed.

(** The mean of an empty array is not-a-number, and so is the score of
    two empty strings: the hypothesis of a positive length above is
    needed. *)
Lemma score_of_empty :
  get_similarity_score "" "" = Returns NaN
  /\ score_is (get_similarity_score "" "") 100 = false.
Proof. split; reflexivity. Qed.

(** * Further properties of the code *)

(** ** Paths of the quarantine folder *)

Lemma append_cons (x : ascii) (a b : string) :
  String x a +:+ b = String x (a +:+ b).
Proof. reflexivity. Qed.

Lemma append_nil_l (b : string) : EmptyString +:+ b = b.
Proof. reflexivity. Qed.

Lemma count_append (a b : string) (c : ascii) :
  count (a +:+ b) c = count a c + count b c.
Proof.
  induction a as [|x a IH]; [reflexivity|].
  rewrite append_cons. simpl. rewrite IH. lia.
Qed.

Lemma append_nil_r (a : string) : a +:+ EmptyString = a.
Proof.
  induction a as [|x a IH]; [reflexivity|]. rewrite append_cons. congruence.
Qed.

Lemma append_assoc (a b c : string) : (a +:+ b) +:+ c = a +:+ (b +:+ c).
Proof.
  induction a as [|x a IH]; [reflexivity|]. rewrite !append_cons. congruence.
Qed.

Lemma basename_from_no_sep (seen p : string) :
  count seen os_sep = 0 -> count (basename_from seen p) os_sep = 0.
Proof.
  revert seen; induction p as [|x p IH]; intros seen Hseen; simpl; [assumption|].
  destruct (Ascii.eqb x os_sep) eqn:Hx; apply IH; [reflexivity|].
  rewrite count_append, Hseen. simpl. rewrite Hx. reflexivity.
Qed.

Lemma basename_from_plain (seen name : string) :
  count name os_sep = 0 -> basename_from seen name = seen +:+ name.
Proof.
  revert seen; induction name as [|x name IH]; intros seen Hname; simpl.
  - symmetry; apply append_nil_r.
  - simpl in Hname. destruct (Ascii.eqb x os_sep); [discriminate Hname|].
    rewrite IH by assumption. apply append_assoc.
Qed.

Lemma basename_from_after_sep (seen a b : string) :
  basename_from seen (a +:+ String os_sep b) = basename b.
Proof.
  revert seen; induction a as [|x a IH]; intros seen.
  - rewrite append_nil_l. reflexivity.
  - rewrite append_cons. simpl. destruct (Ascii.eqb x os_sep); apply IH.
Qed.

Lemma endswith_sep_split (a : string) :
  endswith_sep a = true -> exists a', a = a' +:+ String os_sep EmptyString.
Proof.
  induction a as [|x a IH]; simpl; [discriminate|].
  destruct a as [|y a].
  - intros Hx. apply Ascii.eqb_eq in Hx. subst x. exists EmptyString. reflexivity.
  - intros H. destruct (IH H) as [a' Ha']. exists (String x a').
    rewrite append_cons, <- Ha'. reflexivity.
Qed.

Lemma plain_not_startswith (name : string) :
  count name os_sep = 0 -> startswith_sep name = false.
Proof.
  destruct name as [|x name]; simpl; [reflexivity|].
  destruct (Ascii.eqb x os_sep); [discriminate|reflexivity].
Qed.

(** The last component of a path joined with a plain name is the name. *)
Lemma basename_join (a name : string) :
  count name os_sep = 0 -> basename (join a name) = name.
Proof.
  intros Hname. unfold join. rewrite (plain_not_startswith name Hname).
  destruct (String.eqb_spec a EmptyString) as [->|Hne]; simpl.
  - unfold basename. apply basename_from_plain. assumption.
  - destruct (endswith_sep a) eqn:He.
    + destruct (endswith_sep_split a He) as [a' ->].
      rewrite append_assoc, append_cons, append_nil_l. unfold basename at 1.
      rewrite basename_from_after_sep. unfold basename.
      apply basename_from_plain. assumption.
    + unfold basename at 1. rewrite basename_from_after_sep.
      unfold basename. apply basename_from_plain. assumption.
Qed.

Lemma basename_plain (p : string) : count (basename p) os_sep = 0.
Proof. apply basename_from_no_sep. reflexivity. Qed.

(** X1. The quarantine path of a quarantine path is itself: a duplicate
    met inside the quarantine folder is moved onto its own path.  Two
    files with the same name in different folders have the same
    quarantine path. *)
Theorem quarantine_by_name_only (duplicates_folder dir1 dir2 name p : string) :
  count name os_sep = 0 ->
  quarantine duplicates_folder (quarantine duplicates_folder p)
    = quarantine duplicates_folder p
  /\ quarantine duplicates_folder (join dir1 name)
     = quarantine duplicates_folder (join dir2 name).
Proof.
  intros Hname. unfold quarantine. split.
  - rewrite basename_join by apply basename_plain. reflexivity.
  - rewrite !basename_join by assumption. reflexivity.
Qed.

Lemma quarantine_by_name_only_witness :
  count "a.png" os_sep = 0
  /\ quarantine "photos/_duplicates" (join "photos/2019" "a.png")
     = quarantine "photos/_duplicates" (join "photos/2020/trip" "a.png").
Proof.
  split; [reflexivity|].
  exact (proj2 (quarantine_by_name_only "photos/_duplicates" "photos/2019"
                  "photos/2020/trip" "a.png" "photos/x.png" eq_refl)).
Defined.

Lemma quarantine_depth (duplicates_folder p : string) :
  duplicates_folder <> EmptyString ->
  endswith_sep duplicates_folder = false ->
  depth (quarantine duplicates_folder p) = depth duplicates_folder + 1.
Proof.
  intros Hne He. unfold quarantine, join, depth.
  rewrite (plain_not_startswith _ (basename_plain p)), He.
  destruct (String.eqb_spec duplicates_folder EmptyString) as [->|_];
    [contradiction|]. simpl.
  rewrite count_append. simpl. rewrite (basename_plain p). lia.
Qed.

Lemma endswith_sep_append (a b : string) :
  b <> EmptyString -> endswith_sep (a +:+ b) = endswith_sep b.
Proof.
  intros Hb. induction a as [|x a IH]; [reflexivity|].
  rewrite append_cons. simpl. rewrite IH.
  destruct (a +:+ b) eqn:Hab; [|reflexivity].
  destruct a; [rewrite append_nil_l in Hab; contradiction|discriminate Hab].
Qed.

Lemma append_not_empty (a b : string) :
  b <> EmptyString -> a +:+ b <> EmptyString.
Proof.
  intros Hb. destruct a; [rewrite append_nil_l; assumption|discriminate].
Qed.

Lemma duplicates_folder_shape (input_folder : string) :
  join input_folder DUPLICATE_FOLDER_NAME <> EmptyString
  /\ endswith_sep (join input_folder DUPLICATE_FOLDER_NAME) = false.
Proof.
  unfold join. simpl startswith_sep. cbv iota.
  destruct (String.eqb input_folder EmptyString || endswith_sep input_folder)%bool.
  - split; [apply append_not_empty; discriminate|].
    rewrite endswith_sep_append by discriminate. reflexivity.
  - split; [apply append_not_empty; discriminate|].
    rewrite endswith_sep_append by discriminate. reflexivity.
Qed.

(** X2. The quarantine folder of a run is flat: whatever the inspected
    folder and however deep a path, its quarantine path is one level
    below the quarantine folder and keeps only the last component of the
    path. *)
Theorem quarantine_is_flat (input_folder p : string) :
  let duplicates_folder := join input_folder DUPLICATE_FOLDER_NAME in
  depth (quarantine duplicates_folder p) = depth duplicates_folder + 1
  /\ basename (quarantine duplicates_folder p) = basename p.
Proof.
  intros duplicates_folder.
  destruct (duplicates_folder_shape input_folder) as [Hne He]. split.
  - apply quarantine_depth; assumption.
  - unfold quarantine. apply basename_join, basename_plain.
Qed.

(** ** What a run moves *)

Lemma moved_sources_app (l k : list event) :
  moved_sources (l ++ k) = moved_sources l ++ moved_sources k.
Proof. apply flat_map_app. Qed.

Section Accounting.
Context (m : pipeline) (duplicates_folder : string).
Implicit Types (f : candidate m) (hashes : gmap string (entry m))
  (files : list (candidate m)).

Lemma step_accounting f hashes :
  size (fst (step m duplicates_folder f hashes))
    + length (moved_sources (snd (step m duplicates_folder f hashes)))
  = size hashes + length (completion m duplicates_folder f hashes).
Proof.
  rewrite completion_cases. unfold step.
  destruct (observed m f) as [[h v]|e]; [|simpl; lia].
  destruct (hashes !! h) as [old|] eqn:Hl.
  - destruct (Nat.ltb _ _); destruct (move_answer m f); simpl; try lia.
    rewrite (map_size_insert_Some h v hashes) by (eexists; eassumption). lia.
  - simpl. rewrite map_size_insert_None by assumption. lia.
Qed.

Lemma steps_accounting files hashes :
  size (fst (steps m duplicates_folder files hashes))
    + length (moved_sources (snd (steps m duplicates_folder files hashes)))
  = size hashes + length (completed m duplicates_folder files hashes).
Proof.
  revert hashes; induction files as [|f rest IH]; intros hashes; simpl; [lia|].
  rewrite iteration_step; simpl.
  pose proof (step_accounting f hashes) as Hs.
  destruct (step m duplicates_folder f hashes) as [h1 e1]; simpl in *.
  specialize (IH h1).
  destruct (steps m duplicates_folder rest h1) as [h2 e2]; simpl in *.
  rewrite moved_sources_app, !length_app. lia.
Qed.

(** Every call of [shutil.move] has the quarantine path of its source
    as destination, and its source is the path of a file met so far or
    a stored path. *)
Lemma step_moves f hashes (paths : list string) :
  (forall h v, hashes !! h = Some v -> stored_path m v ∈ paths) ->
  (forall h v, fst (step m duplicates_folder f hashes) !! h = Some v ->
               stored_path m v ∈ paths ++ [file_path m f])
  /\ Forall (moves_to_quarantine duplicates_folder)
            (snd (step m duplicates_folder f hashes))
  /\ Forall (moves_one_of (paths ++ [file_path m f]))
            (snd (step m duplicates_folder f hashes)).
Proof.
  intros Hstored. unfold step.
  assert (Hkeep : forall h v, hashes !! h = Some v ->
                    stored_path m v ∈ paths ++ [file_path m f])
    by (intros h v Hl; apply elem_of_app; left; eapply Hstored; eassumption).
  assert (Hnew : file_path m f ∈ paths ++ [file_path m f])
    by (apply elem_of_app; right; apply list_elem_of_singleton; reflexivity).
  destruct (observed m f) as [[h v]|e] eqn:Ho;
    [|simpl; split; [assumption|split; repeat constructor]].
  pose proof (observed_path m f h v Ho) as Hv.
  assert (Hins : forall h' v', <[h := v]> hashes !! h' = Some v' ->
                   stored_path m v' ∈ paths ++ [file_path m f]).
  { intros h' v' Hl. destruct (decide (h = h')) as [<-|Hne].
    - rewrite lookup_insert_eq in Hl. inversion Hl; subst v'. rewrite Hv. assumption.
    - rewrite lookup_insert_ne in Hl by assumption. eapply Hkeep; eassumption. }
  destruct (hashes !! h) as [old|] eqn:Hl.
  - pose proof (Hkeep h old Hl) as Hold.
    destruct (Nat.ltb _ _); destruct (move_answer m f); simpl;
      (split; [assumption|split; repeat constructor; assumption]).
  - simpl. split; [assumption|split; constructor].
Qed.

Lemma steps_moves files hashes (paths : list string) :
  (forall h v, hashes !! h = Some v -> stored_path m v ∈ paths) ->
  Forall (moves_to_quarantine duplicates_folder)
         (snd (steps m duplicates_folder files hashes))
  /\ Forall (moves_one_of (paths ++ map (file_path m) files))
            (snd (steps m duplicates_folder files hashes)).
Proof.
  revert hashes paths; induction files as [|f rest IH]; intros hashes paths Hstored;
    simpl; [split; constructor|].
  destruct (step_moves f hashes paths Hstored) as (Hst1 & Hq1 & Ho1).
  destruct (step m duplicates_folder f hashes) as [h1 e1]; simpl in *.
  destruct (IH h1 (paths ++ [file_path m f]) Hst1) as [Hq2 Ho2].
  destruct (steps m duplicates_folder rest h1) as [h2 e2]; simpl in *.
  rewrite <- app_assoc in Ho2. simpl in Ho2.
  split; apply Forall_app; split; try assumption.
  eapply Forall_impl; [exact Ho1|]. intros [line|path|src dst|src dst e]; simpl;
    try tauto; rewrite !elem_of_app, !elem_of_cons, elem_of_nil; tauto.
Qed.

End Accounting.

(** X3. At the end of a run of either loop, the files whose iteration
    completed are as many as the entries of the dictionary plus the
    moves that returned: a completed iteration either adds an entry or
    moves exactly one file. *)
Theorem completed_files_kept_or_moved (m : pipeline) (input_folder : string)
    (files : list (candidate m)) :
  length (completed m (join input_folder DUPLICATE_FOLDER_NAME) files ∅)
  = size (encountered_hashes (run m input_folder files))
    + length (moved_sources (trace (run m input_folder files))).
Proof.
  rewrite run_steps. simpl.
  pose proof (steps_accounting m (join input_folder DUPLICATE_FOLDER_NAME) files ∅) as H.
  rewrite map_size_empty in H. lia.
Qed.

(** X4. A run of either loop calls [shutil.move] only on paths of files
    of the traversal, and only with the quarantine path of the source
    (the quarantine folder joined with the last component of the source)
    as destination. *)
Theorem moves_only_into_quarantine (m : pipeline) (input_folder : string)
    (files : list (candidate m)) :
  Forall (moves_to_quarantine (join input_folder DUPLICATE_FOLDER_NAME))
         (trace (run m input_folder files))
  /\ Forall (moves_one_of (map (file_path m) files))
            (trace (run m input_folder files)).
Proof.
  rewrite run_steps. simpl.
  destruct (steps_moves m (join input_folder DUPLICATE_FOLDER_NAME) files ∅ [])
    as [Hq Ho].
  { intros h v Hl. rewrite lookup_empty in Hl. discriminate Hl. }
  simpl in Ho. split; repeat constructor; assumption.
Qed.

Section Apart.
Context (m : pipeline) (duplicates_folder : string).
Implicit Types (f : candidate m) (hashes : gmap string (entry m))
  (files : list (candidate m)) (moved paths : list string).

Lemma kept_apart_grow hashes moved paths p :
  kept_apart m hashes moved paths -> kept_apart m hashes moved (paths ++ [p]).
Proof.
  intros (H1 & H2 & H3 & H4 & H5). repeat split; try assumption.
  - intros h v Hl. apply elem_of_app; left. eapply H1; eassumption.
  - intros src Hs. apply elem_of_app; left. apply H2; assumption.
Qed.

Lemma kept_apart_insert hashes moved paths h v :
  stored_path m v ∉ paths ->
  kept_apart m hashes moved paths ->
  kept_apart m (<[h := v]> hashes) moved (paths ++ [stored_path m v]).
Proof.
  intros Hp (H1 & H2 & H3 & H4 & H5). repeat split; try assumption.
  - intros h' v' Hl. destruct (decide (h = h')) as [<-|Hne].
    + rewrite lookup_insert_eq in Hl. inversion Hl; subst v'.
      apply elem_of_app; right. apply list_elem_of_singleton. reflexivity.
    + rewrite lookup_insert_ne in Hl by assumption.
      apply elem_of_app; left. eapply H1; eassumption.
  - intros src Hs. apply elem_of_app; left. apply H2; assumption.
  - intros h' v' Hl. destruct (decide (h = h')) as [<-|Hne].
    + rewrite lookup_insert_eq in Hl. inversion Hl; subst v'.
      intros Hin. apply Hp, H2. assumption.
    + rewrite lookup_insert_ne in Hl by assumption. eapply H4; eassumption.
  - intros h1 v1 h2 v2 Hl1 Hl2 Heq.
    destruct (decide (h = h1)) as [<-|Hne1]; destruct (decide (h = h2)) as [<-|Hne2];
      try reflexivity.
    + rewrite lookup_insert_eq in Hl1. inversion Hl1; subst v1.
      rewrite lookup_insert_ne in Hl2 by assumption.
      exfalso. apply Hp. rewrite Heq. eapply H1; eassumption.
    + rewrite lookup_insert_eq in Hl2. inversion Hl2; subst v2.
      rewrite lookup_insert_ne in Hl1 by assumption.
      exfalso. apply Hp. rewrite <- Heq. eapply H1; eassumption.
    + rewrite lookup_insert_ne in Hl1, Hl2 by assumption.
      eapply H5; eassumption.
Qed.

Lemma kept_apart_step f hashes moved paths :
  file_path m f ∉ paths ->
  kept_apart m hashes moved paths ->
  kept_apart m (fst (step m duplicates_folder f hashes))
    (moved ++ moved_sources (snd (step m duplicates_folder f hashes)))
    (paths ++ [file_path m f]).
Proof.
  intros Hp Hk. unfold step.
  destruct (observed m f) as [[h v]|e] eqn:Ho;
    [|simpl; rewrite app_nil_r; apply kept_apart_grow; assumption].
  pose proof (observed_path m f h v Ho) as Hv. rewrite <- Hv in Hp |- *.
  destruct (hashes !! h) as [old|] eqn:Hl.
  - destruct (Nat.ltb _ _); destruct (move_answer m f); simpl; rewrite ?app_nil_r;
      try (apply kept_apart_grow; assumption).
    + (* the stored path is moved and replaced *)
      pose proof (kept_apart_insert hashes moved paths h v Hp Hk)
        as (H1 & H2 & H3 & H4 & H5).
      destruct Hk as (K1 & K2 & K3 & K4 & K5).
      repeat split; try assumption.
      * intros src [Hs|Hs]%elem_of_app; [apply H2; assumption|].
        apply list_elem_of_singleton in Hs. subst src.
        apply elem_of_app; left. eapply K1; eassumption.
      * apply NoDup_app. split; [assumption|]. split; [|apply NoDup_singleton].
        intros src Hs Hs'. apply list_elem_of_singleton in Hs'. subst src.
        eapply K4; eassumption.
      * intros h' v' Hl' [Hin|Hin]%elem_of_app; [eapply H4; eassumption|].
        apply list_elem_of_singleton in Hin.
        destruct (decide (h = h')) as [<-|Hne].
        -- rewrite lookup_insert_eq in Hl'. inversion Hl'; subst v'.
           apply Hp. rewrite Hin. eapply K1; eassumption.
        -- rewrite lookup_insert_ne in Hl' by assumption.
           apply Hne. symmetry. eapply K5; eassumption.
    + (* the candidate is moved *)
      destruct Hk as (K1 & K2 & K3 & K4 & K5).
      repeat split; try assumption.
      * intros h' v' Hl'. apply elem_of_app; left. eapply K1; eassumption.
      * intros src [Hs|Hs]%elem_of_app.
        -- apply elem_of_app; left. apply K2; assumption.
        -- apply elem_of_app; right. assumption.
      * apply NoDup_app. split; [assumption|]. split; [|apply NoDup_singleton].
        intros src Hs Hs'. apply list_elem_of_singleton in Hs'. subst src.
        apply Hp. apply K2. assumption.
      * intros h' v' Hl' [Hin|Hin]%elem_of_app; [eapply K4; eassumption|].
        apply list_elem_of_singleton in Hin.
        apply Hp. rewrite <- Hin. eapply K1; eassumption.
  - simpl. rewrite app_nil_r. apply kept_apart_insert; assumption.
Qed.

Lemma kept_apart_steps files hashes moved paths :
  NoDup (map (file_path m) files) ->
  (forall f, f ∈ files -> file_path m f ∉ paths) ->
  kept_apart m hashes moved paths ->
  kept_apart m (fst (steps m duplicates_folder files hashes))
    (moved ++ moved_sources (snd (steps m duplicates_folder files hashes)))
    (paths ++ map (file_path m) files).
Proof.
  revert hashes moved paths; induction files as [|f rest IH];
    intros hashes moved paths Hnd Hfresh Hk; simpl.
  - rewrite !app_nil_r. assumption.
  - simpl in Hnd. apply NoDup_cons in Hnd. destruct Hnd as [Hf Hnd].
    pose proof (kept_apart_step f hashes moved paths) as Hs.
    destruct (step m duplicates_folder f hashes) as [h1 e1]; simpl in *.
    specialize (IH h1 (moved ++ moved_sources e1) (paths ++ [file_path m f]) Hnd).
    destruct (steps m duplicates_folder rest h1) as [h2 e2]; simpl in *.
    rewrite moved_sources_app, app_assoc.
    replace (paths ++ file_path m f :: map (file_path m) rest)
      with ((paths ++ [file_path m f]) ++ map (file_path m) rest)
      by (rewrite <- app_assoc; reflexivity).
    apply IH.
    + intros g Hg [Hin|Hin]%elem_of_app.
      * apply (Hfresh g); [apply elem_of_cons; right; assumption|assumption].
      * apply list_elem_of_singleton in Hin. apply Hf. rewrite <- Hin.
        apply list_elem_of_fmap_2. assumption.
    + apply Hs; [|assumption]. apply Hfresh. apply elem_of_cons; left; reflexivity.
Qed.

End Apart.

(** X5. When the paths of the traversal are distinct, a run of either
    loop moves no path twice, and no path that a move has taken away is
    stored in the dictionary at the end.  (The stored path may itself lie
    in the quarantine folder: a file moved there and met again by the
    traversal is a candidate like any other.) *)
Theorem moved_paths_not_kept (m : pipeline) (input_folder : string)
    (files : list (candidate m)) :
  NoDup (map (file_path m) files) ->
  let st := run m input_folder files in
  NoDup (moved_sources (trace st))
  /\ forall h v,
       encountered_hashes st !! h = Some v ->
       stored_path m v ∉ moved_sources (trace st).
Proof.
  intros Hnd st. subst st. rewrite run_steps. simpl.
  destruct (kept_apart_steps m (join input_folder DUPLICATE_FOLDER_NAME) files ∅ [] [] Hnd)
    as (_ & _ & H3 & H4 & _).
  - intros f _ Hin. apply elem_of_nil in Hin. exact Hin.
  - repeat split; try constructor.
    + intros h v Hl. rewrite lookup_empty in Hl. discriminate Hl.
    + intros src Hin. apply elem_of_nil in Hin. contradiction.
    + intros h v Hl. rewrite lookup_empty in Hl. discriminate Hl.
    + intros h1 v1 h2 v2 Hl. rewrite lookup_empty in Hl. discriminate Hl.
  - simpl in H3, H4. split; assumption.
Qed.

Lemma moved_paths_not_kept_witness :
  NoDup (map (file_path Videos) [shallow_clip; holiday; deep_clip])
  /\ NoDup (moved_sources (trace (run Videos "photos" [shallow_clip; holiday; deep_clip]))).
Proof.
  assert (H : NoDup (map (file_path Videos) [shallow_clip; holiday; deep_clip])).
  { apply (bool_decide_unpack _). vm_compute. exact I. }
  split; [exact H|].
  exact (proj1 (moved_paths_not_kept Videos "photos"
                  [shallow_clip; holiday; deep_clip] H)).
Defined.

(** ** Which copy is kept *)

Lemma first_of_deepest_later (done : list (string * string)) (h' p' h p : string) :
  first_of_deepest done h' p' ->
  (h = h' -> depth p <= depth p') ->
  first_of_deepest (done ++ [(h, p)]) h' p'.
Proof.
  intros (before & after & -> & Hb & Ha) Hle.
  exists before, (after ++ [(h, p)]). split; [|split; [assumption|]].
  - rewrite <- app_assoc. reflexivity.
  - intros q [Hin|Hin]%elem_of_app; [apply Ha; assumption|].
    apply list_elem_of_singleton in Hin. inversion Hin; subst. apply Hle. reflexivity.
Qed.

Section Tie.
Context (m : pipeline) (duplicates_folder : string).
Implicit Types (f : candidate m) (hashes : gmap string (entry m))
  (files : list (candidate m)) (done : list (string * string)).

Lemma step_first_of_deepest f hashes done :
  keeps_deepest m done hashes -> all_recorded m done hashes ->
  (forall h v, hashes !! h = Some v -> first_of_deepest done h (stored_path m v)) ->
  forall h v,
    fst (step m duplicates_folder f hashes) !! h = Some v ->
    first_of_deepest (done ++ completion m duplicates_folder f hashes)
                     h (stored_path m v).
Proof.
  intros Hk Hr Hf. rewrite completion_cases. unfold step.
  destruct (observed m f) as [[h v]|e] eqn:Ho;
    [|simpl; rewrite app_nil_r; assumption].
  pose proof (observed_path m f h v Ho) as Hv.
  assert (Hins : (forall q, (h, q) ∈ done -> depth q < depth (file_path m f)) ->
            forall h' v', <[h := v]> hashes !! h' = Some v' ->
              first_of_deepest (done ++ [(h, file_path m f)]) h' (stored_path m v')).
  { intros Hlt h' v' Hl. destruct (decide (h = h')) as [<-|Hne].
    - rewrite lookup_insert_eq in Hl. inversion Hl; subst v'. rewrite Hv.
      exists done, []. split; [reflexivity|]. split; [assumption|].
      intros q Hin. apply elem_of_nil in Hin. contradiction.
    - rewrite lookup_insert_ne in Hl by assumption.
      apply first_of_deepest_later; [eapply Hf; eassumption|].
      intros Heq; contradiction. }
  destruct (hashes !! h) as [old|] eqn:Hl.
  - destruct (Nat.ltb _ _) eqn:Hd; destruct (move_answer m f); simpl;
      rewrite ?app_nil_r; try assumption.
    + apply Nat.ltb_lt in Hd. apply Hins. intros q Hin.
      destruct (Hk _ _ Hl) as [_ Hmax]. specialize (Hmax _ Hin). lia.
    + apply Nat.ltb_ge in Hd. intros h' v' Hl'.
      apply first_of_deepest_later; [eapply Hf; eassumption|].
      intros ->. rewrite Hl in Hl'. inversion Hl'; subst v'. assumption.
  - simpl. apply Hins. intros q Hin.
    destruct (Hr _ _ Hin) as [o Ho']. rewrite Hl in Ho'. discriminate Ho'.
Qed.

Lemma steps_first_of_deepest files hashes done :
  keeps_deepest m done hashes -> all_recorded m done hashes ->
  (forall h v, hashes !! h = Some v -> first_of_deepest done h (stored_path m v)) ->
  forall h v,
    fst (steps m duplicates_folder files hashes) !! h = Some v ->
    first_of_deepest (done ++ completed m duplicates_folder files hashes)
                     h (stored_path m v).
Proof.
  revert hashes done; induction files as [|f rest IH]; intros hashes done Hk Hr Hf;
    simpl.
  - rewrite app_nil_r. assumption.
  - rewrite iteration_step; simpl.
    destruct (step_keeps_deepest m duplicates_folder f hashes done Hk Hr) as [Hk1 Hr1].
    pose proof (step_first_of_deepest f hashes done Hk Hr Hf) as Hf1.
    destruct (step m duplicates_folder f hashes) as [h1 e1]; simpl in *.
    specialize (IH h1 _ Hk1 Hr1 Hf1).
    destruct (steps m duplicates_folder rest h1) as [h2 e2]; simpl in *.
    rewrite app_assoc. assumption.
Qed.

(** When every call on every file returns, the completed files are the
    files whose fingerprint was computed. *)
Lemma completed_trouble_free files hashes :
  Forall (trouble_free m) files ->
  completed m duplicates_folder files hashes = sightings m files.
Proof.
  intros Hfiles; revert hashes.
  induction Hfiles as [|f rest [(h & v & Ho) Hm] _ IH]; intros hashes; simpl;
    [reflexivity|].
  rewrite IH. f_equal.
  rewrite completion_cases. unfold sighting. rewrite Ho, Hm.
  destruct (hashes !! h); reflexivity.
Qed.

End Tie.

(** X6. At the end of a run of either loop, the path stored for a
    fingerprint is, among the files with that fingerprint whose
    iteration completed, the first of the deepest ones in the order of
    the traversal: every such file met before it is strictly shallower,
    and none met after it is deeper. *)
Theorem first_of_the_deepest_is_kept (m : pipeline) (input_folder : string)
    (files : list (candidate m)) (h : string) (v : entry m) :
  encountered_hashes (run m input_folder files) !! h = Some v ->
  first_of_deepest (completed m (join input_folder DUPLICATE_FOLDER_NAME) files ∅)
                   h (stored_path m v).
Proof.
  rewrite run_steps. simpl. intros Hl.
  apply (steps_first_of_deepest m (join input_folder DUPLICATE_FOLDER_NAME)
           files ∅ []); try assumption.
  - intros h' v' Hv'. rewrite lookup_empty in Hv'. discriminate Hv'.
  - intros h' p Hin. apply elem_of_nil in Hin. contradiction.
  - intros h' v' Hv'. rewrite lookup_empty in Hv'. discriminate Hv'.
Qed.

Lemma first_of_the_deepest_is_kept_witness :
  encountered_hashes (run Videos "photos" [shallow_clip; deep_clip; deep_clip_stuck])
    !! clip_digest = Some ("photos/2020/clip.mp4", 1024%Z)
  /\ first_of_deepest
       (completed Videos (join "photos" DUPLICATE_FOLDER_NAME)
          [shallow_clip; deep_clip; deep_clip_stuck] ∅)
       clip_digest "photos/2020/clip.mp4".
Proof.
  assert (Hl : encountered_hashes
                 (run Videos "photos" [shallow_clip; deep_clip; deep_clip_stuck])
                 !! clip_digest = Some ("photos/2020/clip.mp4", 1024%Z))
    by (vm_compute; reflexivity).
  split; [exact Hl|].
  exact (first_of_the_deepest_is_kept Videos "photos"
           [shallow_clip; deep_clip; deep_clip_stuck] clip_digest
           ("photos/2020/clip.mp4", 1024%Z) Hl).
Defined.

(** X7. When every call on every file returns, the order of the
    traversal decides at most which of the deepest copies is kept: two
    traversals of the same files in different orders end with entries
    for the same fingerprints, and with stored paths of the same depth
    for each of them. *)
Theorem survivor_depth_ignores_order (m : pipeline) (input_folder : string)
    (files1 files2 : list (candidate m)) (h : string) :
  files1 ≡ₚ files2 ->
  Forall (trouble_free m) files1 ->
  (fun v => depth (stored_path m v))
    <$> encountered_hashes (run m input_folder files1) !! h
  = (fun v => depth (stored_path m v))
      <$> encountered_hashes (run m input_folder files2) !! h.
Proof.
  intros Hperm Hfree1.
  assert (Hfree2 : Forall (trouble_free m) files2) by (rewrite <- Hperm; assumption).
  set (dup := join input_folder DUPLICATE_FOLDER_NAME).
  assert (Hrun : forall files,
            Forall (trouble_free m) files ->
            keeps_deepest m (sightings m files)
              (encountered_hashes (run m input_folder files))
            /\ all_recorded m (sightings m files)
                 (encountered_hashes (run m input_folder files))).
  { intros files Hfree. rewrite run_steps. simpl.
    rewrite <- (completed_trouble_free m dup files ∅ Hfree).
    apply (steps_keeps_deepest m dup files ∅ []).
    - intros h' v' Hv'. rewrite lookup_empty in Hv'. discriminate Hv'.
    - intros h' p Hin. apply elem_of_nil in Hin. contradiction. }
  destruct (Hrun files1 Hfree1) as [Hk1 Hr1].
  destruct (Hrun files2 Hfree2) as [Hk2 Hr2].
  assert (Hsame : forall x, x ∈ sightings m files1 <-> x ∈ sightings m files2).
  { intros x. unfold sightings. rewrite !list_elem_of_In.
    split; apply Permutation_in, Permutation_flat_map; [|symmetry]; exact Hperm. }
  destruct (encountered_hashes (run m input_folder files1) !! h) as [v1|] eqn:H1;
    destruct (encountered_hashes (run m input_folder files2) !! h) as [v2|] eqn:H2;
    simpl; try reflexivity.
  - f_equal. destruct (Hk1 _ _ H1) as [Hin1 Hmax1]. destruct (Hk2 _ _ H2) as [Hin2 Hmax2].
    apply Hsame in Hin1. apply Hsame in Hin2.
    specialize (Hmax1 _ Hin2). specialize (Hmax2 _ Hin1). lia.
  - destruct (Hk1 _ _ H1) as [Hin1 _]. apply Hsame in Hin1.
    destruct (Hr2 _ _ Hin1) as [o Ho]. rewrite H2 in Ho. discriminate Ho.
  - destruct (Hk2 _ _ H2) as [Hin2 _]. apply Hsame in Hin2.
    destruct (Hr1 _ _ Hin2) as [o Ho]. rewrite H1 in Ho. discriminate Ho.
Qed.

Lemma survivor_depth_ignores_order_witness :
  [shallow_clip; deep_clip] ≡ₚ [deep_clip; shallow_clip]
  /\ Forall (trouble_free Videos) [shallow_clip; deep_clip]
  /\ (fun v => depth (stored_path Videos v))
       <$> encountered_hashes (run Videos "photos" [shallow_clip; deep_clip])
             !! clip_digest
     = (fun v => depth (stored_path Videos v))
         <$> encountered_hashes (run Videos "photos" [deep_clip; shallow_clip])
               !! clip_digest.
Proof.
  assert (Hp : [shallow_clip; deep_clip] ≡ₚ [deep_clip; shallow_clip])
    by apply perm_swap.
  assert (Hf : Forall (trouble_free Videos) [shallow_clip; deep_clip]).
  { repeat constructor; eexists; eexists; reflexivity. }
  split; [exact Hp|]. split; [exact Hf|].
  exact (survivor_depth_ignores_order Videos "photos" _ _ clip_digest Hp Hf).
Defined.

(** ** No copy is left behind *)

Section Settled.
Context (m : pipeline) (duplicates_folder : string).
Implicit Types (f : candidate m) (hashes : gmap string (entry m))
  (files : list (candidate m)) (seen : list (string * string)) (moved : list string).

Lemma kept_or_moved_step f hashes seen moved :
  trouble_free m f ->
  kept_or_moved m seen hashes moved ->
  kept_or_moved m (seen ++ sighting m f)
    (fst (step m duplicates_folder f hashes))
    (moved ++ moved_sources (snd (step m duplicates_folder f hashes))).
Proof.
  intros [(h & v & Ho) Hm] Hinv. unfold sighting, step. rewrite Ho, Hm.
  pose proof (observed_path m f h v Ho) as Hv.
  assert (Hold : forall old h' p,
            hashes !! h = old ->
            (h', p) ∈ seen ->
            (exists v', <[h := v]> hashes !! h' = Some v' /\ stored_path m v' = p)
            \/ p ∈ moved
            \/ exists o, old = Some o /\ p = stored_path m o).
  { intros old h' p Hl Hin. destruct (Hinv _ _ Hin) as [(v' & Hl' & Hp)|Hmoved];
      [|right; left; assumption].
    destruct (decide (h = h')) as [<-|Hne].
    - right; right. exists v'. split; congruence.
    - left. exists v'. rewrite lookup_insert_ne by assumption. split; assumption. }
  destruct (hashes !! h) as [old|] eqn:Hl.
  - destruct (Nat.ltb _ _); simpl.
    + intros h' p [Hin|Hin]%elem_of_app.
      * destruct (Hold (Some old) h' p eq_refl Hin) as [Hkept|[Hmoved|(o & Ho' & Hp)]].
        -- left; assumption.
        -- right. apply elem_of_app; left; assumption.
        -- right. inversion Ho'; subst o. apply elem_of_app; right.
           apply list_elem_of_singleton. assumption.
      * apply list_elem_of_singleton in Hin. inversion Hin; subst h' p.
        left. exists v. rewrite lookup_insert_eq. split; [reflexivity|assumption].
    + intros h' p [Hin|Hin]%elem_of_app.
      * destruct (Hinv _ _ Hin) as [Hkept|Hmoved]; [left; assumption|].
        right. apply elem_of_app; left; assumption.
      * apply list_elem_of_singleton in Hin. inversion Hin; subst h' p.
        right. apply elem_of_app; right. apply list_elem_of_singleton. reflexivity.
  - simpl. rewrite app_nil_r.
    intros h' p [Hin|Hin]%elem_of_app.
    + destruct (Hold None h' p eq_refl Hin) as [Hkept|[Hmoved|(o & Ho' & _)]];
        [left; assumption|right; assumption|discriminate Ho'].
    + apply list_elem_of_singleton in Hin. inversion Hin; subst h' p.
      left. exists v. rewrite lookup_insert_eq. split; [reflexivity|assumption].
Qed.

Lemma kept_or_moved_steps files hashes seen moved :
  Forall (trouble_free m) files ->
  kept_or_moved m seen hashes moved ->
  kept_or_moved m (seen ++ sightings m files)
    (fst (steps m duplicates_folder files hashes))
    (moved ++ moved_sources (snd (steps m duplicates_folder files hashes))).
Proof.
  intros Hfiles; revert hashes seen moved.
  induction Hfiles as [|f rest Hf _ IH]; intros hashes seen moved Hinv; simpl.
  - rewrite !app_nil_r. assumption.
  - pose proof (kept_or_moved_step f hashes seen moved Hf Hinv) as Hs.
    destruct (step m duplicates_folder f hashes) as [h1 e1]; simpl in *.
    specialize (IH h1 _ _ Hs).
    destruct (steps m duplicates_folder rest h1) as [h2 e2]; simpl in *.
    rewrite moved_sources_app, !app_assoc. assumption.
Qed.

End Settled.

(** X18. When every call on every file returns, no copy is left
    behind: at the end of a run of either loop every file of the
    traversal is the entry of its fingerprint or has been moved to the
    quarantine folder. *)
Theorem every_file_kept_or_moved (m : pipeline) (input_folder : string)
    (files : list (candidate m)) (f : candidate m) (h : string) (v : entry m) :
  Forall (trouble_free m) files ->
  f ∈ files ->
  observed m f = Returns (h, v) ->
  let st := run m input_folder files in
  (exists v', encountered_hashes st !! h = Some v'
              /\ stored_path m v' = file_path m f)
  \/ file_path m f ∈ moved_sources (trace st).
Proof.
  intros Hfree Hin Ho st. subst st. rewrite run_steps. simpl.
  pose proof (kept_or_moved_steps m (join input_folder DUPLICATE_FOLDER_NAME)
                files ∅ [] [] Hfree) as Hinv.
  simpl in Hinv. apply Hinv.
  - intros h' p Hnil. apply elem_of_nil in Hnil. contradiction.
  - unfold sightings. apply list_elem_of_In, in_flat_map. exists f.
    split; [apply list_elem_of_In; assumption|].
    unfold sighting. rewrite Ho. left. reflexivity.
Qed.

Lemma every_file_kept_or_moved_witness :
  Forall (trouble_free Videos) [shallow_clip; holiday; deep_clip]
  /\ shallow_clip ∈ [shallow_clip; holiday; deep_clip]
  /\ ((exists v', encountered_hashes
                    (run Videos "photos" [shallow_clip; holiday; deep_clip])
                    !! clip_digest = Some v'
                  /\ stored_path Videos v' = "photos/clip.mp4")
      \/ "photos/clip.mp4"
           ∈ moved_sources
               (trace (run Videos "photos" [shallow_clip; holiday; deep_clip]))).
Proof.
  assert (Hf : Forall (trouble_free Videos) [shallow_clip; holiday; deep_clip]).
  { repeat constructor; eexists; eexists; reflexivity. }
  assert (Hin : shallow_clip ∈ [shallow_clip; holiday; deep_clip])
    by (apply elem_of_cons; left; reflexivity).
  split; [exact Hf|]. split; [exact Hin|].
  exact (every_file_kept_or_moved Videos "photos" [shallow_clip; holiday; deep_clip]
           shallow_clip clip_digest ("photos/clip.mp4", 1024%Z) Hf Hin eq_refl).
Defined.

(** ** More on the image fingerprint *)

Lemma flatten_map (g : Z -> Z) (img : list (list Z)) :
  flatten (map (map g) img) = map g (flatten img).
Proof.
  unfold flatten. induction img as [|row img IH]; simpl; [reflexivity|].
  rewrite IH, map_app. reflexivity.
Qed.

Lemma total_affine (k c : Z) (pixels : list Z) :
  total (map (fun p => (k * p + c)%Z) pixels)
  = (k * total pixels + c * Z.of_nat (length pixels))%Z.
Proof.
  unfold total. induction pixels as [|p pixels IH]; simpl length; simpl foldr; [lia|].
  simpl map. simpl foldr. rewrite IH. lia.
Qed.

(** X8. The fingerprint of an image only depends on which pixels are
    above the mean: multiplying every pixel by the same positive factor
    and adding the same offset to every pixel leaves it unchanged. *)
Theorem image_hash_ignores_brightness (img : list (list Z)) (k c : Z) :
  (0 < k)%Z ->
  image_hash (Returns (map (map (fun p => (k * p + c)%Z)) img))
  = image_hash (Returns img).
Proof.
  intros Hk. rewrite !image_hash_returns, flatten_map. f_equal. f_equal.
  destruct (flatten img) as [|p0 pixels] eqn:Hpix; [reflexivity|].
  rewrite <- Hpix. rewrite map_map. apply map_ext. intros p.
  assert (Hne : flatten img <> []) by (rewrite Hpix; discriminate).
  rewrite !threshold_mean;
    [|assumption|intros Hnil; apply Hne; destruct (flatten img); [reflexivity|discriminate Hnil]].
  rewrite total_affine, length_map.
  assert (HN : (0 < Z.of_nat (length (flatten img)))%Z)
    by (rewrite Hpix; simpl; lia).
  destruct (Z.ltb_spec (total (flatten img)) (p * Z.of_nat (length (flatten img))));
    destruct (Z.ltb_spec
                (k * total (flatten img) + c * Z.of_nat (length (flatten img)))
                ((k * p + c) * Z.of_nat (length (flatten img))));
    try reflexivity; exfalso; nia.
Qed.

Lemma image_hash_ignores_brightness_witness :
  (0 < 2)%Z
  /\ image_hash (Returns (map (map (fun p => 2 * p + 10)%Z) [[0; 100]; [50; 20]]%Z))
     = image_hash (Returns [[0; 100]; [50; 20]]%Z).
Proof.
  assert (H : (0 < 2)%Z) by lia.
  split; [exact H|].
  exact (image_hash_ignores_brightness [[0; 100]; [50; 20]]%Z 2 10 H).
Defined.

Lemma all_above_impossible (pixels : list Z) (T N : Z) :
  pixels <> [] ->
  Forall (fun p => (T < p * N)%Z) pixels ->
  (Z.of_nat (length pixels) * T < total pixels * N)%Z.
Proof.
  intros Hne Hall. unfold total.
  induction Hall as [|p pixels Hp Hall IH]; [contradiction|].
  simpl length. simpl foldr.
  destruct pixels as [|q pixels].
  - simpl. lia.
  - assert (Hrest : (Z.of_nat (length (q :: pixels)) * T
                     < foldr Z.add 0%Z (q :: pixels) * N)%Z)
      by (apply IH; discriminate).
    rewrite Nat2Z.inj_succ. nia.
Qed.

(** X9. Whatever the size of the array, [image_hash] returns one
    character per pixel, each "0" or "1"; and when there is at least one
    pixel, at least one character is "0": no image hashes to a string of
    ones only, the darkest pixel being never strictly above the mean. *)
Theorem image_hash_has_a_zero (img : list (list Z)) :
  exists s,
    image_hash (Returns img) = Returns s
    /\ String.length s = length (flatten img)
    /\ (forall i a, String.get i s = Some a -> a = "0"%char \/ a = "1"%char)
    /\ (flatten img <> [] -> exists i, String.get i s = Some "0"%char).
Proof.
  eexists. split; [apply image_hash_returns|].
  split; [rewrite length_string_of_list, length_map; reflexivity|].
  split.
  - intros i a. rewrite get_string_of_list, list_lookup_fmap.
    destruct (flatten img !! i) as [p|]; simpl; [|discriminate].
    intros Ha; inversion Ha; subst a. unfold threshold.
    destruct (inject_Z p ?= mean (flatten img))%Q; auto.
  - intros Hne.
    set (pixels := flatten img) in *.
    set (T := total pixels). set (N := Z.of_nat (length pixels)).
    assert (Hex : Exists (fun p => ~ (T < p * N)%Z) pixels).
    { apply not_Forall_Exists; [intros p; apply _|].
      intros Hall. pose proof (all_above_impossible pixels T N Hne Hall) as H.
      subst T N. lia. }
    apply Exists_exists in Hex. destruct Hex as (p & Hin & Hp).
    apply list_elem_of_lookup in Hin. destruct Hin as [i Hi].
    exists i. rewrite get_string_of_list, list_lookup_fmap, Hi. simpl. f_equal.
    rewrite threshold_mean by assumption. fold T N.
    destruct (Z.ltb_spec T (p * N)); [contradiction|reflexivity].
Qed.

(** ** More on the similarity score *)

Lemma not_equal_sym (u v : list ascii) : not_equal u v = not_equal v u.
Proof.
  unfold not_equal. revert v; induction u as [|x u IH]; intros [|y v]; simpl;
    try reflexivity.
  rewrite IH, (Ascii.eqb_sym x y). reflexivity.
Qed.

Lemma image_hash_has_a_zero_witness :
  flatten [[0; 100]; [50; 20]]%Z <> []
  /\ exists s,
       image_hash (Returns [[0; 100]; [50; 20]]%Z) = Returns s
       /\ exists i, String.get i s = Some "0"%char.
Proof.
  assert (Hne : flatten [[0; 100]; [50; 20]]%Z <> []) by discriminate.
  split; [exact Hne|].
  destruct (image_hash_has_a_zero [[0; 100]; [50; 20]]%Z) as (s & Hs & _ & _ & Hzero).
  exists s. split; [exact Hs|]. exact (Hzero Hne).
Defined.

(** X10. The score does not depend on the order of its arguments, the
    exception for different lengths included. *)
Theorem similarity_score_symmetric (a b : string) :
  get_similarity_score a b = get_similarity_score b a.
Proof.
  unfold get_similarity_score, hamming.
  rewrite (Nat.eqb_sym (length (list_ascii_of_string a))), not_equal_sym.
  reflexivity.
Qed.

Lemma round_half_even_monotone (x y : Q) :
  (x <= y)%Q -> (round_half_even x <= round_half_even y)%Z.
Proof.
  intros Hxy. pose proof (Qfloor_resp_le x y Hxy) as Hf.
  unfold round_half_even.
  destruct (Z.eq_dec (Qfloor x) (Qfloor y)) as [Heq|Hne].
  - rewrite Heq.
    destruct (Qcompare_spec (x - inject_Z (Qfloor y)) (1 # 2));
      destruct (Qcompare_spec (y - inject_Z (Qfloor y)) (1 # 2));
      try destruct (Z.even (Qfloor y)); try lia; exfalso; lra.
  - assert (Hlt : (Qfloor x + 1 <= Qfloor y)%Z) by lia.
    destruct (x - inject_Z (Qfloor x) ?= 1 # 2)%Q;
      destruct (y - inject_Z (Qfloor y) ?= 1 # 2)%Q;
      try destruct (Z.even (Qfloor x)); try destruct (Z.even (Qfloor y)); lia.
Qed.

Lemma rounded_percentage_bounds (k n : nat) :
  0 < n -> k <= n ->
  (0 <= round_half_even ((1 - (Z.of_nat k # Pos.of_nat n)) * 100 * 100) <= 10000)%Z.
Proof.
  intros Hn Hk.
  assert (Hp : Z.pos (Pos.of_nat n) = Z.of_nat n) by lia.
  destruct (round_half_even_near
              ((1 - (Z.of_nat k # Pos.of_nat n)) * 100 * 100)) as [Hlo Hhi].
  set (r := round_half_even _) in *.
  unfold Qle, Qminus, Qplus, Qopp, Qmult, inject_Z in Hlo, Hhi;
    simpl in Hlo, Hhi; rewrite ?Pos.mul_1_r, ?Hp in Hlo, Hhi.
  split; nia.
Qed.

(** X11. For two strings of the same length, [get_similarity_score]
    returns not-a-number when they are empty, and otherwise a number
    between 0 and 100. *)
Theorem similarity_score_range (a b : string) :
  String.length a = String.length b ->
  (a = EmptyString -> get_similarity_score a b = Returns NaN)
  /\ (a <> EmptyString ->
      exists q, get_similarity_score a b = Returns (Finite q)
                /\ (0 <= q)%Q /\ (q <= 100)%Q).
Proof.
  intros Hlen. split.
  - intros ->. destruct b; [reflexivity|discriminate Hlen].
  - intros Hne.
    assert (Hpos : 0 < String.length a) by (destruct a; [contradiction|simpl; lia]).
    rewrite score_closed_form by assumption. eexists. split; [reflexivity|].
    pose proof (rounded_percentage_bounds (differing a b) (String.length a) Hpos
                  (differing_le a b)) as [Hlo Hhi].
    set (r := round_half_even _) in *.
    unfold Qle, Qdiv, Qmult, Qinv, inject_Z; simpl. lia.
Qed.

Lemma similarity_score_range_witness :
  String.length "0110" = String.length "1001"
  /\ "0110" <> EmptyString
  /\ exists q, get_similarity_score "0110" "1001" = Returns (Finite q)
               /\ (0 <= q)%Q /\ (q <= 100)%Q.
Proof.
  assert (Hne : "0110" <> EmptyString) by (intros H; discriminate H).
  split; [reflexivity|]. split; [exact Hne|].
  exact (proj2 (similarity_score_range "0110" "1001" eq_refl) Hne).
Defined.

(** X12. The score never grows with the number of differing positions:
    if [c] differs from [a] in at least as many positions as [b] does,
    all three of the same positive length, the score of [a] and [c] is
    at most the score of [a] and [b]. *)
Theorem similarity_score_monotone (a b c : string) :
  String.length a = String.length b ->
  String.length a = String.length c ->
  0 < String.length a ->
  differing a b <= differing a c ->
  exists qb qc,
    get_similarity_score a b = Returns (Finite qb)
    /\ get_similarity_score a c = Returns (Finite qc)
    /\ (qc <= qb)%Q.
Proof.
  intros Hb Hc Hpos Hd.
  rewrite !score_closed_form by assumption.
  eexists. eexists. split; [reflexivity|]. split; [reflexivity|].
  assert (Hr : (round_half_even
                  ((1 - (Z.of_nat (differing a c) # Pos.of_nat (String.length a)))
                   * 100 * 100)
                <= round_half_even
                     ((1 - (Z.of_nat (differing a b) # Pos.of_nat (String.length a)))
                      * 100 * 100))%Z).
  { apply round_half_even_monotone.
    unfold Qle, Qminus, Qplus, Qopp, Qmult; simpl.
    rewrite ?Pos.mul_1_r. nia. }
  revert Hr. generalize (round_half_even
    ((1 - (Z.of_nat (differing a c) # Pos.of_nat (String.length a))) * 100 * 100)).
  generalize (round_half_even
    ((1 - (Z.of_nat (differing a b) # Pos.of_nat (String.length a))) * 100 * 100)).
  intros rb rc Hr. unfold Qle, Qdiv, Qmult, Qinv, inject_Z; simpl. lia.
Qed.

Lemma similarity_score_monotone_witness :
  differing "0110" "0100" <= differing "0110" "1001"
  /\ exists qb qc,
       get_similarity_score "0110" "0100" = Returns (Finite qb)
       /\ get_similarity_score "0110" "1001" = Returns (Finite qc)
       /\ (qc <= qb)%Q.
Proof.
  assert (Hd : differing "0110" "0100" <= differing "0110" "1001")
    by (vm_compute; lia).
  split; [exact Hd|].
  apply (similarity_score_monotone "0110" "0100" "1001" eq_refl eq_refl);
    [simpl; lia|exact Hd].
Defined.

(** ** The digest of a file *)

Lemma read_chunks_cover (size : nat) (content : list Byte.byte) :
  0 < size ->
  concat (read_chunks size content) = content
  /\ Forall (fun chunk => chunk <> [] /\ length chunk <= size)
            (read_chunks size content).
Proof.
  intros Hsize. funelim (read_chunks size content).
  - split; [|constructor].
    destruct size as [|size]; [lia|].
    destruct rest as [|x rest]; [reflexivity|discriminate e].
  - match goal with
    | IH : 0 < _ -> _ |- _ => destruct (IH Hsize) as [Hcat Hall]
    end.
    split.
    + rewrite <- Hread. simpl. rewrite Hcat. apply take_drop.
    + constructor; [|assumption]. split; [discriminate|].
      rewrite <- Hread, length_take. lia.
Qed.

Lemma read_size_value : Z.of_nat READ_SIZE = 8192%Z.
Proof. unfold READ_SIZE. rewrite N_nat_Z. reflexivity. Qed.

Lemma read_size_positive : 0 < READ_SIZE.
Proof. pose proof read_size_value. lia. Qed.

Lemma fold_update {H} (update : H -> list Byte.byte -> H) :
  (forall h a b, update (update h a) b = update h (a ++ b)) ->
  forall chunks h chunk,
    fold_left update chunks (update h chunk) = update h (chunk ++ concat chunks).
Proof.
  intros Hlaw chunks. induction chunks as [|c chunks IH]; intros h chunk; simpl.
  - rewrite app_nil_r. reflexivity.
  - rewrite Hlaw, IH, app_assoc. reflexivity.
Qed.

(** X13. [sha256_hash] hands the content of the file to the hash object
    in order and completely, in chunks that are never empty and never
    longer than 8192 bytes, whatever the size of the file and whatever
    the hash object does with them. *)
Theorem sha256_hash_reads_in_chunks {H : Type} (sha256 : H)
    (update : H -> list Byte.byte -> H) (hexdigest : H -> string)
    (content : list Byte.byte) :
  exists chunks,
    sha256_hash sha256 update hexdigest (Returns content)
    = Returns (hexdigest (fold_left update chunks sha256))
    /\ concat chunks = content
    /\ Forall (fun chunk => chunk <> [] /\ (Z.of_nat (length chunk) <= 8192)%Z) chunks.
Proof.
  exists (read_chunks READ_SIZE content).
  destruct (read_chunks_cover READ_SIZE content read_size_positive) as [Hcat Hall].
  split; [reflexivity|]. split; [assumption|].
  eapply Forall_impl; [exact Hall|]. intros chunk [Hne Hlen].
  split; [assumption|]. rewrite <- read_size_value. lia.
Qed.

(** X14. For a hash object on which two updates amount to one update
    with the concatenation, as [hashlib] documents, the digest
    [sha256_hash] returns for a file that is not empty is the digest of
    its whole content fed at once: reading in chunks does not show.  For
    an empty file it is the digest of the fresh object, and an exception
    raised while opening or reading the file is raised by [sha256_hash]. *)
Theorem sha256_hash_of_whole_content {H : Type} (sha256 : H)
    (update : H -> list Byte.byte -> H) (hexdigest : H -> string)
    (content : list Byte.byte) (e : exn) :
  (forall h a b, update (update h a) b = update h (a ++ b)) ->
  (content <> [] ->
   sha256_hash sha256 update hexdigest (Returns content)
   = Returns (hexdigest (update sha256 content)))
  /\ sha256_hash sha256 update hexdigest (Returns []) = Returns (hexdigest sha256)
  /\ sha256_hash sha256 update hexdigest (Raises e) = Raises e.
Proof.
  intros Hlaw. split; [|split; reflexivity].
  intros Hne. unfold sha256_hash. f_equal. f_equal.
  destruct (read_chunks_cover READ_SIZE content read_size_positive) as [Hcat _].
  destruct (read_chunks READ_SIZE content) as [|chunk chunks].
  - simpl in Hcat. congruence.
  - simpl. rewrite (fold_update update Hlaw). simpl in Hcat. rewrite Hcat.
    reflexivity.
Qed.

Lemma sha256_hash_of_whole_content_witness :
  (forall (h a b : list Byte.byte), (h ++ a) ++ b = h ++ (a ++ b))
  /\ sha256_hash [] (fun h chunk => h ++ chunk) string_of_list_byte
       (Returns [Byte.x66; Byte.x6f; Byte.x6f])
     = Returns (string_of_list_byte ([] ++ [Byte.x66; Byte.x6f; Byte.x6f])).
Proof.
  assert (Hlaw : forall (h a b : list Byte.byte), (h ++ a) ++ b = h ++ (a ++ b))
    by (intros h a b; symmetry; apply app_assoc).
  split; [exact Hlaw|].
  refine (proj1 (sha256_hash_of_whole_content [] (fun h chunk => h ++ chunk)
                   string_of_list_byte [Byte.x66; Byte.x6f; Byte.x6f]
                   permission_denied Hlaw) _).
  discriminate.
Defined.

(** ** The traversal and the whole program *)

Lemma for_each_app {V A} (body : A -> M V unit) (l k : list A) (st : state V) :
  for_each body (l ++ k) st =
    match for_each body l st with
    | (Returns _, st') => for_each body k st'
    | (Raises e, st') => (Raises e, st')
    end.
Proof.
  revert st; induction l as [|x l IH]; intros st; simpl; [reflexivity|].
  unfold mbind, M_bind, bind.
  destruct (body x st) as [[[]|e] st']; [apply IH|reflexivity].
Qed.

Lemma for_each_one {V A} (body : A -> M V unit) (x : A) (st : state V) :
  for_each body [x] st = body x st.
Proof.
  simpl. unfold mbind, M_bind, bind, mret, M_ret, ret.
  destruct (body x st) as [[[]|e] st']; reflexivity.
Qed.

(** Two nested loops whose inner body processes the candidates of an
    item are one loop over all candidates. *)
Lemma for_each_nested {V A B} (body : B -> M V unit)
    (item : string -> A -> M V unit) (candidates : string -> A -> list B)
    (walk : list (string * list A)) (st : state V) :
  (forall root a st', item root a st' = for_each body (candidates root a) st') ->
  for_each (fun '(root, files) => for_each (item root) files) walk st
  = for_each body
      (flat_map (fun '(root, files) => flat_map (candidates root) files) walk) st.
Proof.
  intros Hitem. revert st; induction walk as [|[root files] walk IH]; intros st;
    simpl; [reflexivity|].
  rewrite for_each_app. unfold mbind, M_bind, bind.
  assert (Hinner : forall st', for_each (item root) files st'
                     = for_each body (flat_map (candidates root) files) st').
  { induction files as [|a files IHf]; intros st'; simpl; [reflexivity|].
    rewrite for_each_app. unfold mbind, M_bind, bind. rewrite Hitem.
    destruct (for_each body (candidates root a) st') as [[[]|e] st'']; [apply IHf|reflexivity]. }
  rewrite Hinner.
  destruct (for_each body (flat_map (candidates root) files) st) as [[[]|e] st'];
    [apply IH|reflexivity].
Qed.

Lemma extensions_apart :
  forallb (fun image =>
    forallb (fun video => negb (endswith image video) && negb (endswith video image))
            video_extensions) image_extensions = true.
Proof. vm_compute. reflexivity. Qed.

(** X15. No file name passes both extension filters, whatever
    [str.lower] makes of it: no file is a candidate of both
    [process_images] and [process_videos]. *)
Theorem extension_filters_disjoint (lower : string -> string) (file : string) :
  has_image_extension lower file && has_video_extension lower file = false.
Proof.
  apply andb_false_iff.
  destruct (has_image_extension lower file) eqn:Hi; [right|left; reflexivity].
  destruct (has_video_extension lower file) eqn:Hv; [exfalso|reflexivity].
  unfold has_image_extension, has_video_extension, endswith_any in Hi, Hv.
  apply existsb_exists in Hi. destruct Hi as (image & Hin_i & Hi).
  apply existsb_exists in Hv. destruct Hv as (video & Hin_v & Hv).
  pose proof extensions_apart as Hapart.
  rewrite forallb_forall in Hapart. specialize (Hapart image Hin_i).
  rewrite forallb_forall in Hapart. specialize (Hapart video Hin_v).
  apply andb_true_iff in Hapart. destruct Hapart as [H1 H2].
  apply negb_true_iff in H1, H2.
  unfold endswith in *.
  apply bool_decide_eq_true in Hi, Hv.
  apply bool_decide_eq_false in H1, H2.
  destruct (suffix_weak_total _ _ _ Hi Hv); contradiction.
Qed.

Lemma process_from (m : pipeline) (input_folder : string)
    (files : list (candidate m)) (console : list event) :
  process m input_folder files (State ∅ console)
  = (Returns tt,
     State (encountered_hashes (run m input_folder files))
           (console ++ trace (run m input_folder files))).
Proof.
  rewrite run_steps. simpl.
  set (dup := join input_folder DUPLICATE_FOLDER_NAME).
  pose proof (for_each_steps m dup files
                (State ∅ ((console ++ [Makedirs dup]) ++ [Print (header m)]))) as H.
  destruct m; (etransitivity; [exact H|]); simpl;
    rewrite <- !app_assoc; reflexivity.
Qed.

Lemma walk_images_as_candidates (lower : string -> string) (input_folder : string)
    (walk : list (string * list walked_image)) (st : state string) :
  process_images_walk lower input_folder walk st
  = process_images input_folder (image_candidates lower walk) st.
Proof.
  unfold process_images_walk, process_images, image_candidates.
  unfold mbind, M_bind, bind, print, emit. simpl.
  apply for_each_nested. intros root w st'. unfold image_file_step.
  destruct (has_image_extension lower (wi_file w));
    [exact (eq_sym (for_each_one _ _ _))|reflexivity].
Qed.

Lemma walk_videos_as_candidates (lower : string -> string) (input_folder : string)
    (walk : list (string * list walked_video)) (st : state (string * Z)) :
  process_videos_walk lower input_folder walk st
  = process_videos input_folder (video_candidates lower walk) st.
Proof.
  unfold process_videos_walk, process_videos, video_candidates.
  unfold mbind, M_bind, bind, print, emit. simpl.
  apply for_each_nested. intros root w st'. unfold video_file_step.
  destruct (has_video_extension lower (wv_file w));
    [exact (eq_sym (for_each_one _ _ _))|reflexivity].
Qed.

(** X16. The loops over what [os.walk] yields do what the loops over
    the candidates do: a file whose lower-cased name has none of the
    extensions is skipped without any effect, and the others are
    processed in the order of the traversal under the path of their
    folder joined with their name. *)
Theorem walk_processes_candidates (lower : string -> string) (input_folder : string)
    (image_walk : list (string * list walked_image))
    (video_walk : list (string * list walked_video))
    (si : state string) (sv : state (string * Z)) :
  process_images_walk lower input_folder image_walk si
    = process_images input_folder (image_candidates lower image_walk) si
  /\ process_videos_walk lower input_folder video_walk sv
     = process_videos input_folder (video_candidates lower video_walk) sv.
Proof.
  split.
  - apply walk_images_as_candidates.
  - apply walk_videos_as_candidates.
Qed.

(** X17. What [main] does hangs on the two calls of [os.makedirs] only,
    not on what the files raise.  When both return, [main] returns: it
    prints the folder, runs the image loop and then the video loop, each
    from an empty dictionary of its own, so that neither depends on what
    the other has seen, and prints the closing line last.  When the call
    in [process_images] raises, [main] raises that exception after
    printing the folder and nothing else happens.  When the call in
    [process_videos] raises, [main] raises that exception after the
    image loop has done its work, and the closing line is not printed. *)
Theorem main_runs_both_loops (lower : string -> string) (inspection_folder : string)
    (image_walk : list (string * list walked_image))
    (video_walk : list (string * list walked_video))
    (video_makedirs : option exn) (e : exn) :
  let folder_line := Print ("Inspection folder: " +:+ inspection_folder) in
  let image_events :=
    trace (run Images inspection_folder (image_candidates lower image_walk)) in
  let video_events :=
    trace (run Videos inspection_folder (video_candidates lower video_walk)) in
  main lower inspection_folder None None image_walk video_walk
  = (Returns tt,
     [folder_line] ++ image_events ++ video_events
       ++ [Print (newline +:+
            "Processing complete. Duplicates have been moved to the '_duplicates' folder.")])
  /\ main lower inspection_folder (Some e) video_makedirs image_walk video_walk
     = (Raises e, [folder_line])
  /\ main lower inspection_folder None (Some e) image_walk video_walk
     = (Raises e, [folder_line] ++ image_events).
Proof.
  intros folder_line image_events video_events. unfold main.
  assert (Hi : forall console,
            process_images_walk lower inspection_folder image_walk (State ∅ console)
            = process Images inspection_folder (image_candidates lower image_walk)
                (State ∅ console)).
  { intros console.
    apply (walk_images_as_candidates lower inspection_folder image_walk). }
  assert (Hv : forall console,
            process_videos_walk lower inspection_folder video_walk (State ∅ console)
            = process Videos inspection_folder (video_candidates lower video_walk)
                (State ∅ console)).
  { intros console.
    apply (walk_videos_as_candidates lower inspection_folder video_walk). }
  split; [|split].
  - rewrite Hi, process_from. simpl.
    rewrite Hv, process_from. simpl.
    rewrite <- !app_assoc. reflexivity.
  - reflexivity.
  - rewrite Hi, process_from. reflexivity.
Qed.
